(** * Seismic SDOF simulator: ground-motion synthesis and response solver

    A shallow embedding of the two numerical functions of
    [seismic-simulator/streamlit_app.py], [generar_sismo] and
    [resolver_sdof], together with the wavelet [ricker] they use.

    Numbers.  Python floats and numpy [float64] values are modelled by
    [F64.t]: an exact real, or one of the IEEE special values [+inf],
    [-inf], [nan].  Arithmetic on finite values is exact real arithmetic
    (rounding and overflow are not modelled, and zero carries no sign);
    what IEEE arithmetic does with zeros, infinities and NaN is written
    out, because numpy never raises on a division by zero: it yields
    [inf] or [nan].  The one statement whose truth turns on rounding, the
    last line of [generar_sismo], is also written over the kernel's
    binary64 floats ([normalizar_binary64]), where it can be evaluated.

    The scalar arguments ([T], [intensidad], [m], [c], [k]) are finite
    floats and are taken as reals; arrays are lists of [F64.t].  Seeds
    are taken in the range [np.random.seed] accepts.

    Effects.  The functions call into libraries whose code is not part of
    the repository: the global numpy random generator, scipy's
    [solve_ivp] and streamlit's [st.error].  These calls are the
    constructors of the program type [prog]; [run] executes a program
    against an implementation of the libraries ([externals]), threading
    the generator state and the messages shown on the page.  The
    [st.cache_data] decorators only memoize and are left out.

    The library functions are modelled from their documented behaviour:
    [np.arange], [np.interp], [np.gradient], Python's [max]; what the
    proofs need of [solve_ivp] is stated as explicit assumptions
    ([propaga_errores], [conserva_reposo]), each shown to hold of a
    reference integrator. *)

From Stdlib Require Import String Reals Lra Lia ZArith Bool List.
From Stdlib Require PrimFloat.
Import ListNotations.

(* ================================================================== *)
(** ** numpy float64 values *)
(* ================================================================== *)

Module F64.

Inductive t : Type :=
| Fin (r : R)
| PInf
| NInf
| NaN.

Definition is_finite (x : t) : Prop :=
  match x with Fin _ => True | _ => False end.

(** Sign of a value: [Some true] positive, [Some false] negative,
    [None] for zero and NaN. *)
Definition signum (x : t) : option bool :=
  match x with
  | Fin r => if Rlt_dec 0 r then Some true
             else if Rlt_dec r 0 then Some false else None
  | PInf => Some true
  | NInf => Some false
  | NaN => None
  end.

Definition inf (positive : bool) : t := if positive then PInf else NInf.

Definition neg (x : t) : t :=
  match x with
  | Fin r => Fin (- r)
  | PInf => NInf
  | NInf => PInf
  | NaN => NaN
  end.

Definition abs (x : t) : t :=
  match x with
  | Fin r => Fin (Rabs r)
  | PInf | NInf => PInf
  | NaN => NaN
  end.

Definition add (x y : t) : t :=
  match x, y with
  | NaN, _ | _, NaN => NaN
  | Fin a, Fin b => Fin (a + b)
  | PInf, NInf | NInf, PInf => NaN
  | PInf, _ | _, PInf => PInf
  | NInf, _ | _, NInf => NInf
  end.

Definition sub (x y : t) : t := add x (neg y).

Definition mul (x y : t) : t :=
  match x, y with
  | NaN, _ | _, NaN => NaN
  | Fin a, Fin b => Fin (a * b)
  | _, _ =>
      match signum x, signum y with
      | Some s1, Some s2 => inf (Bool.eqb s1 s2)
      | _, _ => NaN                       (* inf * 0 *)
      end
  end.

(** [x / y] the numpy way: no exception, [0/0 = nan], [a/0 = +-inf]. *)
Definition div (x y : t) : t :=
  match x, y with
  | NaN, _ | _, NaN => NaN
  | Fin a, Fin b =>
      if Req_dec_T b 0
      then match signum x with
           | Some s => inf s
           | None => NaN                  (* 0 / 0 *)
           end
      else Fin (a / b)
  | Fin _, _ => Fin 0                     (* finite / inf *)
  | _, Fin b =>                           (* inf / finite *)
      match signum x with
      | Some s => inf (if Rlt_dec b 0 then negb s else s)
      | None => NaN
      end
  | _, _ => NaN                           (* inf / inf *)
  end.

(** [x ** 2] *)
Definition sq (x : t) : t := mul x x.

(** [np.exp] *)
Definition exp (x : t) : t :=
  match x with
  | Fin r => Fin (Rtrigo_def.exp r)
  | PInf => PInf
  | NInf => Fin 0
  | NaN => NaN
  end.

(** [x > y]; every comparison with NaN is false. *)
Definition gtb (x y : t) : bool :=
  match x, y with
  | NaN, _ | _, NaN => false
  | Fin a, Fin b => if Rlt_dec b a then true else false
  | PInf, PInf => false
  | PInf, _ => true
  | NInf, _ => false
  | Fin _, NInf => true
  | Fin _, PInf => false
  end.

Definition ltb (x y : t) : bool := gtb y x.

(** [x == y] *)
Definition eqb (x y : t) : bool :=
  match x, y with
  | Fin a, Fin b => if Req_dec_T a b then true else false
  | PInf, PInf | NInf, NInf => true
  | _, _ => false
  end.

Definition is_nan (x : t) : bool :=
  match x with NaN => true | _ => false end.

End F64.

Abbreviation f64 := F64.t.
Abbreviation Fin := F64.Fin.
Abbreviation NaN := F64.NaN.

Declare Scope f64_scope.
Delimit Scope f64_scope with f.
Bind Scope f64_scope with F64.t.
Infix "+" := F64.add : f64_scope.
Infix "-" := F64.sub : f64_scope.
Infix "*" := F64.mul : f64_scope.
Infix "/" := F64.div : f64_scope.
Notation "- x" := (F64.neg x) : f64_scope.

Open Scope R_scope.

(** A Python float literal or a finite float parameter. *)
Coercion F64.Fin : R >-> F64.t.

(* ================================================================== *)
(** ** Exceptions and results *)
(* ================================================================== *)

(** A raised Python exception: its class name and [str(e)]. *)
Record exn : Type := Exception { exn_class : string; exn_str : string }.

Definition ValueError (msg : string) : exn := Exception "ValueError" msg.

Inductive result (A : Type) : Type :=
| Ok (a : A)
| Raise (e : exn).
Arguments Ok {A} a.
Arguments Raise {A} e.

Definition rbind {A B} (r : result A) (f : A -> result B) : result B :=
  match r with
  | Ok a => f a
  | Raise e => Raise e
  end.

(* ================================================================== *)
(** ** The numpy and Python built-ins the source calls *)
(* ================================================================== *)

(** Integer ceiling of a real. *)
Definition Rceil (x : R) : Z := (- Int_part (- x))%Z.

(** [np.arange(start, stop, step)]: [ceil((stop - start) / step)] samples
    [start + i * step] (none when that count is not positive).  The
    count is that of the exact quotient; numpy takes the ceiling of the
    rounded quotient, which is the same for a whole number of seconds
    and can be one more elsewhere, so statements about the count are
    made for whole seconds or relative to the grid. *)
Definition np_arange (start stop step : R) : list f64 :=
  map (fun i => Fin (start + INR i * step))
      (seq 0 (Z.to_nat (Rceil ((stop - start) / step)))).

(** Elementwise binary operation on two arrays of one shape. *)
Fixpoint zip_with {A B C} (f : A -> B -> C) (xs : list A) (ys : list B)
  : list C :=
  match xs, ys with
  | x :: xs', y :: ys' => f x y :: zip_with f xs' ys'
  | _, _ => []
  end.

(** Python's built-in [max] over a sequence: keeps the first element and
    replaces it whenever a later one compares greater; raises a
    [ValueError] on an empty sequence (the message is that of CPython up
    to 3.11; later versions word it differently, and no statement below
    depends on it). *)
Definition py_max (xs : list f64) : result f64 :=
  match xs with
  | [] => Raise (ValueError "max() arg is an empty sequence")
  | x :: rest =>
      Ok (fold_left (fun best y => if F64.gtb y best then y else best)
                    rest x)
  end.

(** [np.interp(x, xp, fp)] for a scalar [x] and increasing sample points
    [xp]: the value is held constant outside the samples and joined by
    straight lines between them.  When the line through the left sample
    evaluates to NaN, numpy retries from the right sample, and falls back
    on the common value of a flat segment. *)
Fixpoint interp_from (x xj fj : f64) (rest : list (f64 * f64)) : f64 :=
  match rest with
  | [] => fj
  | (xn, fn) :: rest' =>
      if F64.ltb x xn
      then if F64.eqb xj x then fj
           else let slope := ((fn - fj) / (xn - xj))%f in
                let r := (slope * (x - xj) + fj)%f in
                if F64.is_nan r
                then let r' := (slope * (x - xn) + fn)%f in
                     if F64.is_nan r' && F64.eqb fj fn then fj else r'
                else r
      else interp_from x xn fn rest'
  end.

Definition np_interp (x : f64) (xp fp : list f64) : result f64 :=
  if (length xp =? 0)%nat
  then Raise (ValueError "array of sample points is empty")
  else if negb (length xp =? length fp)%nat
  then Raise (ValueError "fp and xp are not of the same length.")
  else match combine xp fp with
       | [] => Raise (ValueError "array of sample points is empty")
       | [(x0, f0)] => Ok f0
       | (x0, f0) :: rest =>
           Ok (if F64.is_nan x then x
               else if F64.ltb x x0 then f0
               else interp_from x x0 f0 rest)
       end.

(** [np.gradient(f, dx)]: central differences inside, one-sided
    differences at the two ends; needs at least two samples. *)
Fixpoint gradient_from (dx : R) (prev cur : f64) (rest : list f64)
  : list f64 :=
  match rest with
  | [] => [((cur - prev) / dx)%f]
  | next :: rest' =>
      ((next - prev) / (2 * dx)%R)%f :: gradient_from dx cur next rest'
  end.

Definition np_gradient (f : list f64) (dx : R) : result (list f64) :=
  match f with
  | f0 :: f1 :: rest =>
      Ok (((f1 - f0) / dx)%f :: gradient_from dx f0 f1 rest)
  | _ => Raise (ValueError
      "Shape of array too small to calculate a numerical gradient, at least (edge_order + 1) elements are required.")
  end.

(* ================================================================== *)
(** ** Programs over the external libraries *)
(* ================================================================== *)

(** The arguments of one [solve_ivp] call. *)
Record ivp_call : Type := IvpCall {
  ivp_fun : f64 -> f64 * f64 -> result (f64 * f64);
  ivp_t_span : R * R;
  ivp_y0 : f64 * f64;
  ivp_t_eval : list f64;
  ivp_method : string;
  ivp_max_step : R
}.

(** scipy's [OdeResult], for a two-component state: [sol_y] holds one
    state [(y[0][i], y[1][i])] per reported time. *)
Record ode_result : Type := OdeResult {
  sol_y : list (f64 * f64);
  sol_status : Z;
  sol_message : string;
  sol_success : bool
}.

(** [sol.y[i]]: row [i] of the states.  When no state was reported
    scipy leaves [y] as an empty list, and indexing it raises. *)
Definition IndexError (msg : string) : exn := Exception "IndexError" msg.

Definition sol_y_fila (sol : ode_result) (componente : f64 * f64 -> f64)
  : result (list f64) :=
  match sol_y sol with
  | [] => Raise (IndexError "list index out of range")
  | estados => Ok (map componente estados)
  end.

Inductive prog (A : Type) : Type :=
| Ret (a : A)
| Throw (e : exn)
| NpRandomSeed (seed : Z) (k : prog A)
| NpRandomRandn (n : nat) (k : list f64 -> prog A)
| SolveIvp (call : ivp_call) (k : result ode_result -> prog A)
| StError (msg : string) (k : prog A).
Arguments Ret {A} a.
Arguments Throw {A} e.
Arguments NpRandomSeed {A} seed k.
Arguments NpRandomRandn {A} n k.
Arguments SolveIvp {A} call k.
Arguments StError {A} msg k.

Fixpoint bind {A B} (p : prog A) (f : A -> prog B) : prog B :=
  match p with
  | Ret a => f a
  | Throw e => Throw e
  | NpRandomSeed s k => NpRandomSeed s (bind k f)
  | NpRandomRandn n k => NpRandomRandn n (fun z => bind (k z) f)
  | SolveIvp c k => SolveIvp c (fun r => bind (k r) f)
  | StError msg k => StError msg (bind k f)
  end.

(** [try: p  except Exception as e: handler(e)] *)
Fixpoint try_except {A} (p : prog A) (handler : exn -> prog A) : prog A :=
  match p with
  | Ret a => Ret a
  | Throw e => handler e
  | NpRandomSeed s k => NpRandomSeed s (try_except k handler)
  | NpRandomRandn n k => NpRandomRandn n (fun z => try_except (k z) handler)
  | SolveIvp c k => SolveIvp c (fun r => try_except (k r) handler)
  | StError msg k => StError msg (try_except k handler)
  end.

(** A pure library call that may raise. *)
Definition lift {A} (r : result A) : prog A :=
  match r with
  | Ok a => Ret a
  | Raise e => Throw e
  end.

(** [np.random.seed(seed)], for a seed in the range [0 .. 2**32 - 1]
    that numpy accepts; the [ValueError] it raises outside that range is
    not modelled (the page only passes the default seed 0). *)
Definition np_random_seed (seed : Z) : prog unit :=
  NpRandomSeed seed (Ret tt).
Definition np_random_randn (n : nat) : prog (list f64) :=
  NpRandomRandn n Ret.
Definition solve_ivp (call : ivp_call) : prog ode_result :=
  SolveIvp call lift.
Definition st_error (msg : string) : prog unit :=
  StError msg (Ret tt).

Declare Scope prog_scope.
Delimit Scope prog_scope with prog.
Notation "x <- p ;; q" := (bind p (fun x => q))
  (at level 61, p at next level, right associativity) : prog_scope.
Notation "p ;; q" := (bind p (fun _ => q))
  (at level 61, right associativity) : prog_scope.

(** An implementation of the libraries: the process-wide numpy random
    generator (its state, seeding, and drawing [n] standard-normal
    samples, which are [n] finite numbers) and scipy's integrator, a
    function of its arguments. *)
Record externals : Type := Externals {
  rng_state : Type;
  seed_rng : Z -> rng_state;
  draw_randn : nat -> rng_state -> list f64 * rng_state;
  draw_randn_length :
    forall n g, length (fst (draw_randn n g)) = n;
  draw_randn_finite :
    forall n g, Forall F64.is_finite (fst (draw_randn n g));
  integrate : ivp_call -> result ode_result
}.

(** What a run can change: the generator state and the error boxes
    shown on the page (oldest first). *)
Record world (X : externals) : Type := World {
  rng : rng_state X;
  shown : list string
}.
Arguments World {X} rng shown.
Arguments rng {X} w.
Arguments shown {X} w.

Fixpoint run (X : externals) {A} (p : prog A) (w : world X)
  : result A * world X :=
  match p with
  | Ret a => (Ok a, w)
  | Throw e => (Raise e, w)
  | NpRandomSeed s k => run X k (World (seed_rng X s) (shown w))
  | NpRandomRandn n k =>
      let '(z, g) := draw_randn X n (rng w) in
      run X (k z) (World g (shown w))
  | SolveIvp c k => run X (k (integrate X c)) w
  | StError msg k => run X k (World (rng w) (shown w ++ [msg]))
  end.

(* ================================================================== *)
(** ** The source functions *)
(* ================================================================== *)

(** [ricker(t, t0, f0)], at one sample [t] of the time array. *)
Definition ricker (t : f64) (t0 f0 : R) : f64 :=
  let tau := (t - t0)%f in
  let a := F64.sq ((PI * f0)%R * tau)%f in
  ((1 - 2 * a) * F64.exp (- a))%f.

(** [generar_sismo(T, intensidad, seed=0)] returns [(t, acc)]. *)
Definition generar_sismo (T intensidad : R) (seed : Z)
  : prog (list f64 * list f64) :=
  (let dt := 0.01 in
   let t := np_arange 0 T dt in
   let acc :=
     map (fun ti =>
            0.8 * ricker ti (T / 3 - 5) 1.0
            + 1.2 * ricker ti (T / 3) 2.5
            + 0.6 * ricker ti (T / 3 + 5) 4.0
            + 0.3 * ricker ti (T / 2) 1.2
            + 0.4 * ricker ti (2 * T / 3) 3.0)%f t in
   let env :=
     map (fun ti => F64.exp (- F64.sq ((ti - (T / 2)%R) / (T / 4)%R))%f) t in
   let acc := zip_with F64.mul acc env in
   np_random_seed seed ;;
   ruido <- np_random_randn (length t) ;;
   let acc := zip_with F64.add acc (map (F64.mul 0.05) ruido) in
   pico <- lift (py_max (map F64.abs acc)) ;;
   let acc := map (fun a => a / pico * (0.6 * intensidad)%R)%f acc in
   Ret (t, acc))%prog.

(** The tuple [resolver_sdof] returns on success. *)
Record respuesta : Type := Respuesta {
  r_t : list f64;
  r_x : list f64;
  r_v : list f64;
  r_a : list f64;
  r_E_cinetica : list f64;
  r_E_potencial : list f64;
  r_E_total : list f64
}.

(** The right-hand side [modelo_sdof(ti, y)] closed over the arguments of
    [resolver_sdof]: [t] is the time grid and [F_t] the seismic force. *)
Definition modelo_sdof (m c k : R) (t F_t : list f64)
  (ti : f64) (y : f64 * f64) : result (f64 * f64) :=
  let '(x, v) := y in
  rbind (np_interp ti t F_t) (fun Fi =>
  let a := ((Fi - c * v - k * x) / m)%f in
  Ok (v, a)).

(** [resolver_sdof(m, c, k, T, acc_ground)] returns the tuple, or [None]
    after showing the error. *)
Definition resolver_sdof (m c k T : R) (acc_ground : list f64)
  : prog (option respuesta) :=
  (let dt := 0.01 in
   let t := np_arange 0 T dt in
   let F_t := map (fun ag => (- m)%R * ag)%f acc_ground in
   try_except
     (let y0 := (Fin 0, Fin 0) in
      sol <- solve_ivp (IvpCall (modelo_sdof m c k t F_t) (0, T) y0 t
                                "RK45" 0.01) ;;
      x <- lift (sol_y_fila sol fst) ;;
      v <- lift (sol_y_fila sol snd) ;;
      a <- lift (np_gradient v dt) ;;
      let E_cinetica := map (fun vi => (0.5 * m)%R * F64.sq vi)%f v in
      let E_potencial := map (fun xi => (0.5 * k)%R * F64.sq xi)%f x in
      let E_total := zip_with F64.add E_cinetica E_potencial in
      Ret (Some (Respuesta t x v a E_cinetica E_potencial E_total)))
     (fun e =>
        st_error ("Error al resolver la ecuación diferencial: "
                  ++ exn_str e)%string ;;
        Ret None))%prog.

(* ================================================================== *)
(** ** Names for the intermediate values of the two functions *)
(* ================================================================== *)

(** The time grid both functions build: [np.arange(0, T, 0.01)]. *)
Definition malla (T : R) : list f64 := np_arange 0 T 0.01.

(** The wavelet sum and the envelope of [generar_sismo] at one sample. *)
Definition superposicion (T : R) (ti : f64) : f64 :=
  (0.8 * ricker ti (T / 3 - 5) 1.0
   + 1.2 * ricker ti (T / 3) 2.5
   + 0.6 * ricker ti (T / 3 + 5) 4.0
   + 0.3 * ricker ti (T / 2) 1.2
   + 0.4 * ricker ti (2 * T / 3) 3.0)%f.

Definition envolvente (T : R) (ti : f64) : f64 :=
  F64.exp (- F64.sq ((ti - (T / 2)%R) / (T / 4)%R))%f.

(** The signal of [generar_sismo] before its last statement: the
    enveloped wavelet sum plus the scaled noise [ruido]. *)
Definition senal_bruta (T : R) (ruido : list f64) : list f64 :=
  let t := malla T in
  zip_with F64.add
    (zip_with F64.mul (map (superposicion T) t) (map (envolvente T) t))
    (map (F64.mul 0.05) ruido).

(** The last statement of [generar_sismo]:
    [acc / max(abs(acc)) * (0.6 * intensidad)]. *)
Definition normalizar (acc : list f64) (intensidad : R)
  : result (list f64) :=
  rbind (py_max (map F64.abs acc)) (fun pico =>
  Ok (map (fun a => a / pico * (0.6 * intensidad)%R)%f acc)).

(** The noise [generar_sismo] draws for duration [T] after seeding. *)
Definition ruido_de (X : externals) (T : R) (seed : Z) : list f64 :=
  fst (draw_randn X (length (malla T)) (seed_rng X seed)).

(** The peak [max(abs(acc))] that [generar_sismo] divides by. *)
Definition pico_bruto (X : externals) (T : R) (seed : Z) : result f64 :=
  py_max (map F64.abs (senal_bruta T (ruido_de X T seed))).

(** The same wavelet and enveloped sum on finite times, as reals. *)
Definition ricker_R (t t0 f0 : R) : R :=
  let tau := t + - t0 in
  let a := (PI * f0 * tau) * (PI * f0 * tau) in
  (1 + - (2 * a)) * exp (- a).

Definition onda_R (T t : R) : R :=
  (0.8 * ricker_R t (T / 3 - 5) 1.0
   + 1.2 * ricker_R t (T / 3) 2.5
   + 0.6 * ricker_R t (T / 3 + 5) 4.0
   + 0.3 * ricker_R t (T / 2) 1.2
   + 0.4 * ricker_R t (2 * T / 3) 3.0)
  * exp (- ((t + - (T / 2)) / (T / 4) * ((t + - (T / 2)) / (T / 4)))).

(** The force array and the integrator call of [resolver_sdof]. *)
Definition fuerza (m : R) (acc_ground : list f64) : list f64 :=
  map (fun ag => (- m)%R * ag)%f acc_ground.

Definition llamada (m c k T : R) (acc_ground : list f64) : ivp_call :=
  IvpCall (modelo_sdof m c k (malla T) (fuerza m acc_ground))
          (0, T) (Fin 0, Fin 0) (malla T) "RK45" 0.01.

(** The tuple built from the integrator's states. *)
Definition posproceso (m k T : R) (sol : ode_result)
  : result respuesta :=
  rbind (sol_y_fila sol fst) (fun x =>
  rbind (sol_y_fila sol snd) (fun v =>
  rbind (np_gradient v 0.01) (fun a =>
  let E_cinetica := map (fun vi => (0.5 * m)%R * F64.sq vi)%f v in
  let E_potencial := map (fun xi => (0.5 * k)%R * F64.sq xi)%f x in
  Ok (Respuesta (malla T) x v a E_cinetica E_potencial
                (zip_with F64.add E_cinetica E_potencial))))).

(** [e < 0] is false of an energy sample. *)
Definition no_negativa (e : f64) : Prop := F64.ltb e (Fin 0) = false.

Definition mensaje_error (e : exn) : string :=
  ("Error al resolver la ecuación diferencial: " ++ exn_str e)%string.

(** The value and the final world of a run. *)
Definition valor {X A} (p : prog A) (w : world X) : result A :=
  fst (run X p w).
Definition mundo {X A} (p : prog A) (w : world X) : world X :=
  snd (run X p w).

(* ================================================================== *)
(** ** What the proofs assume of scipy's integrator *)
(* ================================================================== *)

(** [solve_ivp] evaluates the right-hand side at the initial point, and an
    exception raised there leaves [solve_ivp] as an exception. *)
Definition propaga_errores (X : externals) : Prop :=
  forall call e,
    ivp_fun call (Fin (fst (ivp_t_span call))) (ivp_y0 call) = Raise e ->
    exists e', integrate X call = Raise e'.

(** The calls [solve_ivp] accepts: a forward time span, the method
    "RK45", a positive step cap, and at least one requested time, the
    requested times being finite, inside the span and strictly
    increasing. *)
Definition llamada_bien_formada (call : ivp_call) : Prop :=
  fst (ivp_t_span call) < snd (ivp_t_span call)
  /\ ivp_method call = "RK45"%string
  /\ 0 < ivp_max_step call
  /\ exists ts,
       ivp_t_eval call = map Fin ts
       /\ ts <> []
       /\ (forall t, In t ts ->
                     fst (ivp_t_span call) <= t <= snd (ivp_t_span call))
       /\ (forall i j, (i < j < length ts)%nat ->
                       nth i ts 0 < nth j ts 0).

(** On a call it accepts, an explicit Runge-Kutta method started at the
    rest state of a system whose right-hand side vanishes there at all
    times stays there, and reports that state at every requested
    time. *)
Definition conserva_reposo (X : externals) : Prop :=
  forall call,
    llamada_bien_formada call ->
    ivp_y0 call = (Fin 0, Fin 0) ->
    (forall ti : R,
        ivp_fun call (Fin ti) (Fin 0, Fin 0) = Ok (Fin 0, Fin 0)) ->
    exists sol,
      integrate X call = Ok sol
      /\ sol_y sol = map (fun _ => (Fin 0, Fin 0)) (ivp_t_eval call).

(* ================================================================== *)
(** ** Reference implementations of the libraries *)
(* ================================================================== *)

(** Explicit Euler along the requested times, one step per interval.
    Like scipy it first evaluates the right-hand side at the initial
    point. *)
Fixpoint euler_pasos (f : f64 -> f64 * f64 -> result (f64 * f64))
  (tj : f64) (yj : f64 * f64) (rest : list f64)
  : result (list (f64 * f64)) :=
  match rest with
  | [] => Ok [yj]
  | tn :: rest' =>
      rbind (f tj yj) (fun d =>
      let h := (tn - tj)%f in
      let yn := (fst yj + h * fst d, snd yj + h * snd d)%f in
      rbind (euler_pasos f tn yn rest') (fun ys => Ok (yj :: ys)))
  end.

Definition integrador_euler (call : ivp_call) : result ode_result :=
  rbind (ivp_fun call (Fin (fst (ivp_t_span call))) (ivp_y0 call))
        (fun _ =>
  rbind (match ivp_t_eval call with
         | [] => Ok []
         | t0 :: rest => euler_pasos (ivp_fun call) t0 (ivp_y0 call) rest
         end) (fun ys =>
  Ok (OdeResult ys 0
        "The solver successfully reached the end of the integration interval."
        true))).

(** An integrator that gives up after two reported states, the way
    [solve_ivp] does when the step size collapses: no exception, a
    result with [success = False] and the states reached so far. *)
Definition integrador_sin_converger (call : ivp_call)
  : result ode_result :=
  Ok (OdeResult [(Fin 0, Fin 0); (Fin 1, Fin 2)] (-1)
        "Required step size is less than spacing between numbers."
        false).

(** An integrator whose very first step fails: no exception either, a
    result with [success = False] and no state at all. *)
Definition integrador_sin_estados (call : ivp_call)
  : result ode_result :=
  Ok (OdeResult [] (-1)
        "Required step size is less than spacing between numbers."
        false).

(** An integrator that raises. *)
Definition integrador_que_lanza (call : ivp_call) : result ode_result :=
  Raise (ValueError "`max_step` must be positive.").

(** Libraries whose random samples are read off a fixed sequence of
    reals, starting at the position given by the seed. *)
Definition externals_de (muestras : nat -> R)
  (integrador : ivp_call -> result ode_result) : externals :=
  {| rng_state := nat;
     seed_rng := Z.to_nat;
     draw_randn := fun n g =>
       (map (fun i => Fin (muestras i)) (seq g n), (g + n)%nat);
     draw_randn_length := fun n g =>
       ltac:(cbn; rewrite length_map, length_seq; reflexivity);
     draw_randn_finite := fun n g =>
       ltac:(cbn; apply Forall_forall; intros x Hx;
             apply in_map_iff in Hx; destruct Hx as [i [<- _]]; exact I);
     integrate := integrador |}.

Definition X_euler : externals :=
  externals_de (fun _ => 200) integrador_euler.
Definition X_sin_converger : externals :=
  externals_de (fun _ => 200) integrador_sin_converger.
Definition X_sin_estados : externals :=
  externals_de (fun _ => 200) integrador_sin_estados.
Definition X_que_lanza : externals :=
  externals_de (fun _ => 200) integrador_que_lanza.

(** Libraries whose noise cancels the enveloped wavelet sum of duration
    [0.02] at every sample. *)
Definition X_cancela : externals :=
  externals_de (fun i => -20 * onda_R 0.02 (0 + INR i * 0.01))
               integrador_euler.

(** A world to start from. *)
Definition mundo0 : world X_euler := World (X := X_euler) 0%nat [].

(* ================================================================== *)
(** ** The rest of the page: dynamic parameters, labels, main flow *)
(* ================================================================== *)

(** [np.sqrt]: NaN (with a warning, no exception) on a negative number. *)
Definition np_sqrt (x : f64) : f64 :=
  match x with
  | F64.Fin r => if Rlt_dec r 0 then NaN else Fin (sqrt r)
  | F64.PInf => F64.PInf
  | F64.NInf => NaN
  | F64.NaN => NaN
  end.

Definition ZeroDivisionError : exn :=
  Exception "ZeroDivisionError" "float division by zero".

(** [a / b] on two Python floats: raises on a zero divisor. *)
Definition py_div (a b : R) : result R :=
  if Req_dec_T b 0 then Raise ZeroDivisionError else Ok (a / b).

(** The five descriptors computed in the sidebar (lines 96-100). *)
Record dinamica : Type := Dinamica {
  omega_n : f64;
  freq_nat : f64;
  periodo : f64;
  c_critic : f64;
  zeta : f64
}.

Definition parametros_dinamicos (m c k : R) : result dinamica :=
  rbind (py_div k m) (fun k_m =>
  let omega_n := np_sqrt k_m in
  let freq_nat := (omega_n / (2 * PI)%R)%f in
  let periodo := ((2 * PI)%R / omega_n)%f in
  let c_critic := (2 * np_sqrt (m * k)%R)%f in
  let zeta := (c / c_critic)%f in
  Ok (Dinamica omega_n freq_nat periodo c_critic zeta)).

(** The [delta] label of the damping-ratio metric (line 109). *)
Definition etiqueta_lateral (zeta : f64) : string :=
  if F64.ltb (F64.abs (zeta - 1.0)%f) 0.05 then "Crítico"
  else if F64.ltb zeta 1 then "Subamort." else "Sobreamort.".

(** The type shown in the technical tab (line 330). *)
Definition tipo_amortiguamiento (zeta : f64) : string :=
  if F64.ltb zeta 1 then "Subamortiguado"
  else if F64.eqb zeta 1 then "Críticamente amortiguado"
  else "Sobreamortiguado".

(** [st.stop()] ends the script run by raising streamlit's
    [StopException]. *)
Definition st_stop {A} : prog A := Throw (Exception "StopException" "").

Definition mensaje_sin_respuesta : string :=
  "No se pudo calcular la respuesta. Ajusta los parámetros.".

(** The main flow (lines 179-187): synthesize with the default seed,
    solve, and stop the page when there is no result. *)
Definition calcular (m c k T intensidad : R)
  : prog (list f64 * list f64 * respuesta) :=
  (t_acc <- generar_sismo T intensidad 0 ;;
   let '(t, acc) := t_acc in
   resultado <- resolver_sdof m c k T acc ;;
   match resultado with
   | None => st_error mensaje_sin_respuesta ;; st_stop
   | Some r => Ret (r_t r, acc, r)
   end)%prog.

(* ================================================================== *)
(** ** The last statement of [generar_sismo] in binary64 *)
(* ================================================================== *)

Module Binary64.
Import PrimFloat.

(** [max(abs(acc))] as Python computes it: the first element, replaced
    by each later one that compares greater. *)
Definition max_abs_binary64 (acc : list float) : option float :=
  match acc with
  | [] => None
  | a0 :: rest =>
      Some (fold_left
              (fun best a => if ltb best (abs a) then abs a else best)
              rest (abs a0))
  end.

(** [acc / max(abs(acc)) * (0.6 * intensidad)] with every operation
    rounded to binary64; [0x1.3333333333333p-1] is the float that the
    literal [0.6] denotes.  [None] stands for the [ValueError] of [max]
    on an empty array. *)
Definition normalizar_binary64 (acc : list float) (intensidad : float)
  : option (list float) :=
  match max_abs_binary64 acc with
  | None => None
  | Some pico =>
      Some (map (fun a => a / pico * (0x1.3333333333333p-1 * intensidad))%float
                acc)
  end.

(** A raw signal of two samples, [0.3] and [1.0]. *)
Definition bruta_binary64 : list float :=
  [0x1.3333333333333p-2; 1]%float.

Definition uno_binary64 : float := 1%float.
Definition tres_binary64 : float := 3%float.

End Binary64.

(* ================================================================== *)
(** ** Unfolding the two functions *)
(* ================================================================== *)

Lemma run_generar_sismo (X : externals) (T intensidad : R) (seed : Z)
  (w : world X) :
  run X (generar_sismo T intensidad seed) w =
  (rbind (normalizar (senal_bruta T (ruido_de X T seed)) intensidad)
         (fun acc => Ok (malla T, acc)),
   World (snd (draw_randn X (length (malla T)) (seed_rng X seed)))
         (shown w)).
Proof.
  unfold generar_sismo, normalizar, senal_bruta, ruido_de, malla,
    superposicion, envolvente. cbn.
  destruct (draw_randn X _ _) as [z g]. cbn.
  destruct (py_max _); reflexivity.
Qed.

Lemma resolver_sdof_first (m c k T : R) (acc_ground : list f64) :
  exists kont, resolver_sdof m c k T acc_ground
               = SolveIvp (llamada m c k T acc_ground) kont.
Proof. eexists. reflexivity. Qed.

Lemma run_resolver_sdof (X : externals) (m c k T : R)
  (acc_ground : list f64) (w : world X) :
  run X (resolver_sdof m c k T acc_ground) w =
  match rbind (integrate X (llamada m c k T acc_ground))
              (posproceso m k T) with
  | Ok r => (Ok (Some r), w)
  | Raise e => (Ok None, World (rng w) (shown w ++ [mensaje_error e]))
  end.
Proof.
  unfold resolver_sdof, posproceso. cbn -[np_gradient sol_y_fila].
  fold (malla T). fold (fuerza m acc_ground).
  fold (llamada m c k T acc_ground).
  destruct (integrate X _) as [sol | e]; cbn -[np_gradient sol_y_fila];
    [| reflexivity].
  unfold sol_y_fila. destruct (sol_y sol) as [| y ys]; [reflexivity |].
  cbn -[np_gradient F64.mul F64.sq F64.add].
  destruct (np_gradient _ _); reflexivity.
Qed.

(* ================================================================== *)
(** ** Basic facts: ceilings, the grid, decisions on reals *)
(* ================================================================== *)

(** Settles the comparisons of reals a computation is stuck on. *)
Ltac decide_R :=
  repeat (cbn;
    match goal with
    | |- context [Rlt_dec ?a ?b] => destruct (Rlt_dec a b); try lra
    | |- context [Req_dec_T ?a ?b] => destruct (Req_dec_T a b); try lra
    end); cbn.

Lemma Rceil_bounds (x : R) : IZR (Rceil x) - 1 < x <= IZR (Rceil x).
Proof.
  unfold Rceil, Int_part. destruct (archimed (- x)) as [H1 H2].
  rewrite opp_IZR, minus_IZR. lra.
Qed.

Lemma Rceil_unique (x : R) (z : Z) : IZR z - 1 < x <= IZR z -> Rceil x = z.
Proof.
  intros [H1 H2]. destruct (Rceil_bounds x) as [B1 B2].
  assert (Hlo : (Rceil x < z + 1)%Z) by (apply lt_IZR; rewrite plus_IZR; lra).
  assert (Hhi : (z < Rceil x + 1)%Z) by (apply lt_IZR; rewrite plus_IZR; lra).
  lia.
Qed.

Lemma malla_length (T : R) :
  length (malla T) = Z.to_nat (Rceil (T / 0.01)).
Proof.
  unfold malla, np_arange. rewrite length_map, length_seq.
  replace ((T - 0) / 0.01) with (T / 0.01) by lra. reflexivity.
Qed.

Lemma malla_of_length (T : R) (n : nat) :
  IZR (Z.of_nat n) - 1 < T / 0.01 <= IZR (Z.of_nat n) ->
  malla T = map (fun i => Fin (0 + INR i * 0.01)) (seq 0 n).
Proof.
  intros H. unfold malla, np_arange.
  replace ((T - 0) / 0.01) with (T / 0.01) by lra.
  rewrite (Rceil_unique _ _ H), Nat2Z.id. reflexivity.
Qed.

Lemma malla_nth (T : R) (i : nat) :
  (i < length (malla T))%nat -> nth i (malla T) NaN = Fin (INR i * 0.01).
Proof.
  intros Hi. unfold malla, np_arange in *.
  rewrite length_map, length_seq in Hi.
  rewrite (nth_indep _ NaN (Fin (0 + INR 0 * 0.01)))
    by (rewrite length_map, length_seq; exact Hi).
  rewrite (map_nth (fun i => Fin (0 + INR i * 0.01))).
  rewrite seq_nth by exact Hi. f_equal. cbn [Nat.add]. lra.
Qed.

(* ================================================================== *)
(** ** The library models on small inputs *)
(* ================================================================== *)

Example div_cero_cero : (Fin 0 / Fin 0)%f = NaN.
Proof. decide_R. reflexivity. Qed.

Example div_uno_cero : (Fin 1 / Fin 0)%f = F64.PInf.
Proof. decide_R. reflexivity. Qed.

Example py_max_salta_nan :
  py_max [Fin 1; NaN; Fin 3; Fin 2] = Ok (Fin 3).
Proof. cbn. decide_R. reflexivity. Qed.

Example py_max_nan_primero : py_max [NaN; Fin 1] = Ok NaN.
Proof. reflexivity. Qed.

Example np_interp_medio :
  np_interp (Fin 0.5) [Fin 0; Fin 1] [Fin 10; Fin 20] = Ok (Fin 15).
Proof.
  unfold np_interp, F64.ltb. decide_R. do 2 f_equal.
  replace (1 + - 0) with 1 by lra. lra.
Qed.

Example np_interp_fuera :
  np_interp (Fin 7) [Fin 0; Fin 1] [Fin 10; Fin 20] = Ok (Fin 20).
Proof. unfold np_interp, F64.ltb. decide_R. reflexivity. Qed.

Example np_gradient_tres :
  np_gradient [Fin 0; Fin 1; Fin 4] 1 = Ok [Fin 1; Fin 2; Fin 3].
Proof.
  cbn. decide_R. apply f_equal.
  repeat (apply (f_equal2 cons); [apply (f_equal Fin); lra |]).
  reflexivity.
Qed.

Example np_gradient_uno : exists e, np_gradient [Fin 5] 0.01 = Raise e.
Proof. eexists. reflexivity. Qed.

Example malla_20_length : length (malla 20) = 2000%nat.
Proof.
  rewrite malla_length, (Rceil_unique _ 2000) by lra. reflexivity.
Qed.

(* ================================================================== *)
(** ** Determinism and purity *)
(* ================================================================== *)

(** C5. [generar_sismo] is deterministic: whatever the state of the
    process-wide random generator and of the page before the call, equal
    arguments give the same time and acceleration arrays (or the same
    exception), and leave the generator in the same state, because the
    generator is re-seeded from [seed] before the noise is drawn. *)
Theorem generar_sismo_determinista (X : externals) (T intensidad : R)
  (seed : Z) (w1 w2 : world X) :
  valor (generar_sismo T intensidad seed) w1
  = valor (generar_sismo T intensidad seed) w2
  /\ rng (mundo (generar_sismo T intensidad seed) w1)
     = rng (mundo (generar_sismo T intensidad seed) w2).
Proof.
  unfold valor, mundo. rewrite !run_generar_sismo. split; reflexivity.
Qed.

(** C8. [resolver_sdof] is a function of its arguments: there is one
    result and one list of shown messages that every run with these
    arguments produces, from whatever world it starts; it draws no random
    numbers and leaves the generator state as it found it. *)
Theorem resolver_sdof_idempotente (X : externals) (m c k T : R)
  (acc_ground : list f64) :
  exists (v : option respuesta) (msgs : list string),
    forall w : world X,
      run X (resolver_sdof m c k T acc_ground) w
      = (Ok v, World (rng w) (shown w ++ msgs)).
Proof.
  destruct (rbind (integrate X (llamada m c k T acc_ground))
                  (posproceso m k T)) as [r | e] eqn:E.
  - exists (Some r), []. intros w. rewrite run_resolver_sdof, E.
    rewrite app_nil_r. destruct w; reflexivity.
  - exists None, [mensaje_error e]. intros w.
    rewrite run_resolver_sdof, E. reflexivity.
Qed.

(* ================================================================== *)
(** ** Parameter checking *)
(* ================================================================== *)

Lemma malla_002 :
  malla 0.02 = [Fin (0 + 0 * 0.01); Fin (0 + 1 * 0.01)].
Proof. rewrite (malla_of_length 0.02 2) by (cbn; lra). reflexivity. Qed.

Lemma resolver_sdof_no_lanza (X : externals) (m c k T : R)
  (acc_ground : list f64) (w : world X) :
  exists v, valor (resolver_sdof m c k T acc_ground) w = Ok v.
Proof.
  unfold valor. rewrite run_resolver_sdof.
  destruct (rbind _ _); eexists; reflexivity.
Qed.

(** C1, as stated, fails at [m = 0]: nothing is raised (by any run), the
    first thing the call does is to invoke the integrator, and the
    right-hand side it hands over divides by the zero mass (it answers
    [nan] for the acceleration at the rest state). *)
Lemma resolver_sdof_masa_nula_no_rechazada :
  let acc := [Fin 1; Fin 1] in
  (exists kont, resolver_sdof 0 0.5 20 0.02 acc
                = SolveIvp (llamada 0 0.5 20 0.02 acc) kont)
  /\ ivp_fun (llamada 0 0.5 20 0.02 acc) (Fin 0) (Fin 0, Fin 0)
     = Ok (Fin 0, NaN)
  /\ forall (X : externals) (w : world X) (e : exn),
       valor (resolver_sdof 0 0.5 20 0.02 acc) w <> Raise e.
Proof.
  cbn zeta. split; [apply resolver_sdof_first | split].
  - unfold llamada, modelo_sdof, fuerza, np_interp. cbn [ivp_fun].
    rewrite malla_002. unfold F64.ltb. decide_R. reflexivity.
  - intros X w e. destruct (resolver_sdof_no_lanza X 0 0.5 20 0.02
                              [Fin 1; Fin 1] w) as [v Hv].
    rewrite Hv. discriminate.
Qed.

(** C1, amended.  [resolver_sdof] checks no parameter: for all argument
    values, inside or outside the ranges the sliders allow, its first
    action is the integrator call built from them, and no run ends in an
    exception: the value is the tuple or [None]. *)
Theorem resolver_sdof_sin_validacion (m c k T : R)
  (acc_ground : list f64) :
  (exists kont, resolver_sdof m c k T acc_ground
                = SolveIvp (llamada m c k T acc_ground) kont)
  /\ forall (X : externals) (w : world X),
       exists v, valor (resolver_sdof m c k T acc_ground) w = Ok v.
Proof.
  split; [apply resolver_sdof_first |].
  intros X w. apply resolver_sdof_no_lanza.
Qed.

(* ================================================================== *)
(** ** Failures of the integrator *)
(* ================================================================== *)

Lemma np_gradient_length (f : list f64) (dx : R) (g : list f64) :
  np_gradient f dx = Ok g -> length g = length f.
Proof.
  destruct f as [| f0 [| f1 rest]]; cbn; try discriminate.
  intros [= <-]. cbn. do 1 f_equal.
  revert f0 f1. induction rest as [| f2 rest IH]; intros f0 f1; cbn.
  - reflexivity.
  - f_equal. apply IH.
Qed.

Lemma malla_003_length : length (malla 0.03) = 3%nat.
Proof.
  rewrite malla_length, (Rceil_unique _ 3) by lra. reflexivity.
Qed.

(** C2, as stated, fails: the integrator reports that it did not converge
    ([success = False], status [-1]) after two states, and
    [resolver_sdof] shows no error and returns a tuple whose response
    series stop after two samples of a three-sample grid. *)
Lemma resolver_sdof_devuelve_resultado_parcial :
  let acc := [Fin 0; Fin 0; Fin 0] in
  let w := World (X := X_sin_converger) 0%nat [] in
  (exists sol,
      integrate X_sin_converger (llamada 1 0.5 20 0.03 acc) = Ok sol
      /\ sol_success sol = false /\ sol_status sol = (-1)%Z)
  /\ exists r,
      run X_sin_converger (resolver_sdof 1 0.5 20 0.03 acc) w
      = (Ok (Some r), w)
      /\ length (r_t r) = 3%nat
      /\ r_x r = [Fin 0; Fin 1]
      /\ length (r_a r) = 2%nat.
Proof.
  cbn zeta. split.
  - eexists. split; [reflexivity | split; reflexivity].
  - rewrite run_resolver_sdof. cbn. eexists. split; [reflexivity |].
    cbn. split; [apply malla_003_length | split; reflexivity].
Qed.

(** C2, amended.  When the integrator raises, [resolver_sdof] shows
    ["Error al resolver la ecuación diferencial: "] followed by the
    exception's message and returns [None]: no response series at all. *)
Theorem resolver_sdof_error_del_integrador (X : externals)
  (m c k T : R) (acc_ground : list f64) (w : world X) (e : exn) :
  integrate X (llamada m c k T acc_ground) = Raise e ->
  run X (resolver_sdof m c k T acc_ground) w
  = (Ok None, World (rng w) (shown w ++ [mensaje_error e])).
Proof.
  intros H. rewrite run_resolver_sdof, H. reflexivity.
Qed.

Lemma resolver_sdof_error_del_integrador_witness :
  run X_que_lanza (resolver_sdof 1 0.5 20 20 [])
      (World (X := X_que_lanza) 0%nat [])
  = (Ok None,
     World (X := X_que_lanza) 0%nat
       ["Error al resolver la ecuación diferencial: `max_step` must be positive."%string]).
Proof.
  apply (resolver_sdof_error_del_integrador X_que_lanza 1 0.5 20 20 []
           (World (X := X_que_lanza) 0%nat [])
           (ValueError "`max_step` must be positive.")).
  reflexivity.
Defined.

(* ================================================================== *)
(** ** A record that does not fit the grid *)
(* ================================================================== *)

Lemma modelo_sdof_desalineado (m c k : R) (t F_t : list f64)
  (ti : f64) (y : f64 * f64) :
  length t <> length F_t ->
  exists e, modelo_sdof m c k t F_t ti y = Raise e.
Proof.
  intros H. destruct y as [x v]. unfold modelo_sdof, np_interp.
  apply Nat.eqb_neq in H. rewrite H.
  destruct (length t =? 0)%nat; eexists; reflexivity.
Qed.

Lemma euler_propaga_errores (muestras : nat -> R) :
  propaga_errores (externals_de muestras integrador_euler).
Proof.
  intros call e H. exists e. cbn. unfold integrador_euler.
  rewrite H. reflexivity.
Qed.

(** C9. With an integrator that evaluates the right-hand side at the
    initial point and lets its exception through, a ground record whose
    length is not that of [np.arange(0, T, 0.01)] makes [resolver_sdof]
    show one error and return [None]; so a returned tuple implies a
    record of the grid's length. *)
Theorem resolver_sdof_registro_desalineado (X : externals)
  (m c k T : R) (acc_ground : list f64) (w : world X) :
  propaga_errores X ->
  length acc_ground <> length (malla T) ->
  (exists msg,
      run X (resolver_sdof m c k T acc_ground) w
      = (Ok None, World (rng w) (shown w ++ [msg])))
  /\ forall r, valor (resolver_sdof m c k T acc_ground) w <> Ok (Some r).
Proof.
  intros HX Hlen.
  destruct (modelo_sdof_desalineado m c k (malla T) (fuerza m acc_ground)
              (Fin 0) (Fin 0, Fin 0)) as [e He].
  { unfold fuerza. rewrite length_map. congruence. }
  destruct (HX (llamada m c k T acc_ground) e) as [e' He'].
  { unfold llamada. cbn [ivp_fun ivp_t_span ivp_y0 fst]. exact He. }
  unfold valor. rewrite run_resolver_sdof, He'. cbn. split.
  - eexists. reflexivity.
  - intros r. discriminate.
Qed.

Lemma resolver_sdof_registro_desalineado_witness :
  (exists msg,
      run X_euler (resolver_sdof 1 0.5 20 0.02 [Fin 1]) mundo0
      = (Ok None, World (rng mundo0) (shown mundo0 ++ [msg])))
  /\ forall r, valor (resolver_sdof 1 0.5 20 0.02 [Fin 1]) mundo0
               <> Ok (Some r).
Proof.
  apply (resolver_sdof_registro_desalineado X_euler 1 0.5 20 0.02
           [Fin 1] mundo0).
  - apply euler_propaga_errores.
  - rewrite malla_002. cbn. lia.
Defined.

(* ================================================================== *)
(** ** Lengths and the common time grid *)
(* ================================================================== *)

Lemma zip_with_length {A B C} (f : A -> B -> C) (xs : list A)
  (ys : list B) :
  length (zip_with f xs ys) = Nat.min (length xs) (length ys).
Proof.
  revert ys. induction xs as [| x xs IH]; intros [| y ys]; cbn; auto.
Qed.

Lemma senal_bruta_length (T : R) (ruido : list f64) :
  length ruido = length (malla T) ->
  length (senal_bruta T ruido) = length (malla T).
Proof.
  intros H. unfold senal_bruta.
  rewrite !zip_with_length, !length_map, H. lia.
Qed.

Lemma ruido_de_length (X : externals) (T : R) (seed : Z) :
  length (ruido_de X T seed) = length (malla T).
Proof. unfold ruido_de. apply draw_randn_length. Qed.

Lemma normalizar_length (acc : list f64) (intensidad : R)
  (acc' : list f64) :
  normalizar acc intensidad = Ok acc' -> length acc' = length acc.
Proof.
  unfold normalizar. destruct (py_max _); cbn; [| discriminate].
  intros [= <-]. apply length_map.
Qed.

Lemma normalizar_no_vacia (acc : list f64) (intensidad : R) :
  acc <> [] -> exists acc', normalizar acc intensidad = Ok acc'.
Proof.
  destruct acc as [| a acc]; [congruence |]. intros _.
  unfold normalizar. cbn. eexists. reflexivity.
Qed.

Lemma generar_sismo_valor (X : externals) (T intensidad : R) (seed : Z)
  (w : world X) (t acc : list f64) :
  valor (generar_sismo T intensidad seed) w = Ok (t, acc) ->
  t = malla T /\ length acc = length (malla T).
Proof.
  unfold valor. rewrite run_generar_sismo. cbn [fst].
  destruct (normalizar _ _) as [acc' |] eqn:E; cbn; [| discriminate].
  intros [= <- <-]. split; [reflexivity |].
  rewrite (normalizar_length _ _ _ E).
  apply senal_bruta_length, ruido_de_length.
Qed.

Lemma resolver_sdof_valor (X : externals) (m c k T : R)
  (acc_ground : list f64) (w : world X) (r : respuesta) :
  valor (resolver_sdof m c k T acc_ground) w = Ok (Some r) ->
  exists sol,
    integrate X (llamada m c k T acc_ground) = Ok sol
    /\ posproceso m k T sol = Ok r.
Proof.
  unfold valor. rewrite run_resolver_sdof.
  destruct (integrate X _) as [sol | e]; cbn; [| discriminate].
  destruct (posproceso m k T sol) as [r' |] eqn:E; cbn; [| discriminate].
  intros [= <-]. exists sol. split; [reflexivity | exact E].
Qed.

Lemma estados_dec (sol : ode_result) :
  {sol_y sol = []} + {sol_y sol <> []}.
Proof. destruct (sol_y sol); [left | right]; congruence. Qed.

Lemma posproceso_sin_estados (m k T : R) (sol : ode_result) :
  sol_y sol = [] ->
  posproceso m k T sol = Raise (IndexError "list index out of range").
Proof. intros H. unfold posproceso, sol_y_fila. rewrite H. reflexivity. Qed.

Lemma posproceso_con_estados (m k T : R) (sol : ode_result) :
  sol_y sol <> [] ->
  posproceso m k T sol
  = rbind (np_gradient (map snd (sol_y sol)) 0.01) (fun a =>
    let x := map fst (sol_y sol) in
    let v := map snd (sol_y sol) in
    let E_cinetica := map (fun vi => (0.5 * m)%R * F64.sq vi)%f v in
    let E_potencial := map (fun xi => (0.5 * k)%R * F64.sq xi)%f x in
    Ok (Respuesta (malla T) x v a E_cinetica E_potencial
                  (zip_with F64.add E_cinetica E_potencial))).
Proof.
  intros H. unfold posproceso, sol_y_fila.
  destruct (sol_y sol); [congruence | reflexivity].
Qed.

Lemma posproceso_lengths (m k T : R) (sol : ode_result) (r : respuesta) :
  posproceso m k T sol = Ok r ->
  let n := length (sol_y sol) in
  r_t r = malla T
  /\ length (r_x r) = n /\ length (r_v r) = n /\ length (r_a r) = n
  /\ length (r_E_cinetica r) = n /\ length (r_E_potencial r) = n
  /\ length (r_E_total r) = n.
Proof.
  destruct (estados_dec sol) as [Ey | Hne].
  { rewrite posproceso_sin_estados by exact Ey. discriminate. }
  rewrite posproceso_con_estados by exact Hne.
  destruct (np_gradient _ _) as [a |] eqn:E; cbn [rbind]; [| discriminate].
  intros [= <-].
  cbn [r_t r_x r_v r_a r_E_cinetica r_E_potencial r_E_total].
  apply np_gradient_length in E.
  rewrite zip_with_length, !length_map in *. repeat split; auto; lia.
Qed.

Lemma Int_part_15 : Int_part (0.015 / 0.01) = 1%Z.
Proof.
  unfold Int_part. rewrite <- (tech_up (0.015 / 0.01) 2); [reflexivity | |];
    lra.
Qed.

Lemma malla_0015_length : length (malla 0.015) = 2%nat.
Proof.
  rewrite malla_length, (Rceil_unique _ 2) by lra. reflexivity.
Qed.

Lemma generar_sismo_devuelve (X : externals) (T intensidad : R)
  (seed : Z) (w : world X) :
  malla T <> [] ->
  exists acc, valor (generar_sismo T intensidad seed) w = Ok (malla T, acc).
Proof.
  intros Hne. unfold valor. rewrite run_generar_sismo. cbn [fst].
  destruct (normalizar_no_vacia (senal_bruta T (ruido_de X T seed))
              intensidad) as [acc E].
  - intros H0. apply (f_equal (@length _)) in H0.
    rewrite senal_bruta_length in H0 by apply ruido_de_length.
    destruct (malla T); [congruence | discriminate].
  - rewrite E. cbn. eexists. reflexivity.
Qed.

(** C6, as stated, fails at [T = 0.015]: the grid has two samples
    ([0] and [0.01]), while [floor(T / 0.01) = 1]. *)
Lemma generar_sismo_longitud_no_es_floor :
  exists t acc,
    valor (generar_sismo 0.015 1 0) mundo0 = Ok (t, acc)
    /\ length t = 2%nat
    /\ Z.to_nat (Int_part (0.015 / 0.01)) = 1%nat.
Proof.
  destruct (generar_sismo_devuelve X_euler 0.015 1 0 mundo0) as [acc E].
  - intros H0. pose proof malla_0015_length as L. rewrite H0 in L.
    discriminate.
  - exists (malla 0.015), acc. split; [exact E | split].
    + apply malla_0015_length.
    + rewrite Int_part_15. reflexivity.
Qed.

Lemma malla_entera (n : nat) : length (malla (INR n)) = (100 * n)%nat.
Proof.
  rewrite malla_length, (Rceil_unique _ (Z.of_nat (100 * n))).
  - apply Nat2Z.id.
  - rewrite <- INR_IZR_INZ, mult_INR.
    replace (INR 100) with 100
      by (change 100%nat with (Z.to_nat 100);
          rewrite INR_IZR_INZ, Z2Nat.id by lia; reflexivity).
    lra.
Qed.

(** C6, amended.  When [generar_sismo] returns, the time vector is the
    grid [np.arange(0, T, 0.01)], whose sample [i] is [i * 0.01] (so it
    starts at 0), the ground record has the grid's length, and for a
    duration of [n] whole seconds that length is [100 * n].  When
    [resolver_sdof] then returns a tuple for that record, the tuple's
    time vector is the same grid and its six series have one common
    length, the number of states the integrator reported. *)
Theorem series_sobre_la_malla (X : externals) (T intensidad : R)
  (seed : Z) (w : world X) (t acc : list f64) :
  valor (generar_sismo T intensidad seed) w = Ok (t, acc) ->
  t = malla T
  /\ length acc = length t
  /\ (forall i, (i < length t)%nat -> nth i t NaN = Fin (INR i * 0.01))
  /\ (forall n : nat, T = INR n -> length t = (100 * n)%nat)
  /\ forall (m c k : R) (w' : world X) (r : respuesta),
       valor (resolver_sdof m c k T acc) w' = Ok (Some r) ->
       r_t r = t
       /\ length (r_v r) = length (r_x r)
       /\ length (r_a r) = length (r_x r)
       /\ length (r_E_cinetica r) = length (r_x r)
       /\ length (r_E_potencial r) = length (r_x r)
       /\ length (r_E_total r) = length (r_x r)
       /\ exists sol,
            integrate X (llamada m c k T acc) = Ok sol
            /\ length (r_x r) = length (sol_y sol).
Proof.
  intros Hg. apply generar_sismo_valor in Hg. destruct Hg as [-> Hacc].
  split; [reflexivity |]. split; [exact Hacc |]. split; [| split].
  - intros i Hi. apply malla_nth. exact Hi.
  - intros n ->. apply malla_entera.
  - intros m c k w' r Hr.
    apply resolver_sdof_valor in Hr. destruct Hr as [sol [Hsol Hpos]].
    apply posproceso_lengths in Hpos. cbn zeta in Hpos.
    destruct Hpos as (Ht & Hx & Hv & Ha & Hc & Hp & He).
    rewrite Hx, Hv, Ha, Hc, Hp, He. repeat split; auto.
    exists sol. split; [exact Hsol | reflexivity].
Qed.

Lemma np_interp_ok (x : f64) (xp fp : list f64) :
  length xp = length fp -> xp <> [] -> exists v, np_interp x xp fp = Ok v.
Proof.
  intros Hlen Hne. unfold np_interp. rewrite Hlen, Nat.eqb_refl. cbn.
  destruct xp as [| x0 xp]; [congruence |].
  destruct fp as [| f0 fp]; [discriminate |]. cbn.
  destruct (combine xp fp); eexists; reflexivity.
Qed.

Lemma modelo_sdof_ok (m c k : R) (t F_t : list f64) (ti : f64)
  (y : f64 * f64) :
  length t = length F_t -> t <> [] ->
  exists d, modelo_sdof m c k t F_t ti y = Ok d.
Proof.
  intros Hlen Hne. destruct y as [x v]. unfold modelo_sdof.
  destruct (np_interp_ok ti t F_t Hlen Hne) as [Fi ->]. cbn.
  eexists. reflexivity.
Qed.

Lemma euler_pasos_ok (f : f64 -> f64 * f64 -> result (f64 * f64)) :
  (forall t y, exists d, f t y = Ok d) ->
  forall rest tj yj,
    exists ys, euler_pasos f tj yj rest = Ok ys
               /\ length ys = S (length rest).
Proof.
  intros Hf. induction rest as [| tn rest IH]; intros tj yj; cbn.
  - eexists. split; reflexivity.
  - destruct (Hf tj yj) as [d ->]. cbn.
    match goal with
    | |- context [euler_pasos f tn ?yn rest] =>
        destruct (IH tn yn) as [ys [-> Hys]]
    end.
    cbn. eexists. split; [reflexivity |]. cbn. rewrite Hys. reflexivity.
Qed.

Lemma integrador_euler_ok (call : ivp_call) :
  (forall t y, exists d, ivp_fun call t y = Ok d) ->
  exists sol, integrador_euler call = Ok sol
              /\ length (sol_y sol) = length (ivp_t_eval call).
Proof.
  intros Hf. unfold integrador_euler.
  destruct (Hf (Fin (fst (ivp_t_span call))) (ivp_y0 call)) as [d ->]. cbn.
  destruct (ivp_t_eval call) as [| t0 rest]; cbn.
  - eexists. split; reflexivity.
  - destruct (euler_pasos_ok _ Hf rest t0 (ivp_y0 call)) as [ys [-> Hys]].
    cbn. eexists. split; [reflexivity | exact Hys].
Qed.

Lemma np_gradient_ok (f : list f64) (dx : R) :
  (2 <= length f)%nat -> exists g, np_gradient f dx = Ok g.
Proof.
  destruct f as [| f0 [| f1 rest]]; cbn; try lia.
  intros _. eexists. reflexivity.
Qed.

Lemma resolver_euler_devuelve (muestras : nat -> R) (m c k T : R)
  (acc_ground : list f64)
  (w : world (externals_de muestras integrador_euler)) :
  length acc_ground = length (malla T) ->
  (2 <= length (malla T))%nat ->
  exists sol r,
    integrador_euler (llamada m c k T acc_ground) = Ok sol
    /\ length (sol_y sol) = length (malla T)
    /\ valor (resolver_sdof m c k T acc_ground) w = Ok (Some r).
Proof.
  intros Hlen Hn.
  destruct (integrador_euler_ok (llamada m c k T acc_ground))
    as [sol [Hsol Hy]].
  { intros t y. apply modelo_sdof_ok.
    - unfold fuerza. rewrite length_map. congruence.
    - intros H0. rewrite H0 in Hn. cbn in Hn. lia. }
  cbn [llamada ivp_t_eval] in Hy.
  destruct (np_gradient_ok (map snd (sol_y sol)) 0.01) as [a Ha].
  { rewrite length_map. lia. }
  eexists sol, _. split; [exact Hsol | split; [exact Hy |]].
  unfold valor. rewrite run_resolver_sdof. cbn [integrate externals_de].
  rewrite Hsol. cbn [rbind]. rewrite posproceso_con_estados, Ha.
  - reflexivity.
  - intros H0. rewrite H0 in Hy. cbn in Hy. lia.
Qed.

Lemma series_sobre_la_malla_witness :
  exists acc r,
    valor (generar_sismo 20 1 0) mundo0 = Ok (malla 20, acc)
    /\ valor (resolver_sdof 1 0.5 20 20 acc) mundo0 = Ok (Some r)
    /\ length (malla 20) = 2000%nat /\ length acc = 2000%nat
    /\ nth 0 (malla 20) NaN = Fin (INR 0 * 0.01)
    /\ r_t r = malla 20
    /\ length (r_x r) = 2000%nat /\ length (r_v r) = 2000%nat
    /\ length (r_a r) = 2000%nat /\ length (r_E_cinetica r) = 2000%nat
    /\ length (r_E_potencial r) = 2000%nat
    /\ length (r_E_total r) = 2000%nat.
Proof.
  pose proof malla_20_length as L.
  destruct (generar_sismo_devuelve X_euler 20 1 0 mundo0) as [acc E].
  { intros H0. rewrite H0 in L. discriminate. }
  destruct (series_sobre_la_malla X_euler 20 1 0 mundo0 (malla 20) acc E)
    as (_ & Hacc & Hnth & _ & Hres).
  destruct (resolver_euler_devuelve (fun _ => 200) 1 0.5 20 20 acc mundo0)
    as [sol [r [Hsol [Hy Hr]]]]; [exact Hacc | lia |].
  destruct (Hres 1 0.5 20 mundo0 r Hr)
    as (Ht & Hv & Ha & Hc & Hp & He & sol' & Hsol' & Hx).
  cbn [integrate X_euler externals_de] in Hsol'.
  rewrite Hsol in Hsol'. injection Hsol' as <-.
  rewrite Hy, L in Hx. rewrite Hx in Hv, Ha, Hc, Hp, He.
  exists acc, r. rewrite L in Hacc.
  repeat split; try assumption.
  apply Hnth. lia.
Defined.

(* ================================================================== *)
(** ** The structure at rest under zero ground motion *)
(* ================================================================== *)

Lemma malla_reales (T : R) :
  malla T = map Fin (map (fun i => 0 + INR i * 0.01)
                         (seq 0 (length (malla T)))).
Proof.
  rewrite map_map. unfold malla at 1. unfold np_arange.
  rewrite malla_length. replace ((T - 0) / 0.01) with (T / 0.01) by lra.
  reflexivity.
Qed.

Lemma malla_length_ge_1 (T : R) : 0 < T -> (1 <= length (malla T))%nat.
Proof.
  intros HT. rewrite malla_length.
  destruct (Rceil_bounds (T / 0.01)) as [_ B].
  assert (0 < Rceil (T / 0.01))%Z by (apply lt_IZR; lra). lia.
Qed.

Lemma malla_length_ge_2 (T : R) : 0.01 < T -> (2 <= length (malla T))%nat.
Proof.
  intros HT. rewrite malla_length.
  destruct (Rceil_bounds (T / 0.01)) as [_ B].
  assert (1 < Rceil (T / 0.01))%Z by (apply lt_IZR; lra). lia.
Qed.

Lemma fuerza_ceros (m : R) (n : nat) :
  fuerza m (repeat (Fin 0) n) = repeat (Fin 0) n.
Proof.
  unfold fuerza. induction n as [| n IH]; [reflexivity |].
  cbn [repeat map]. rewrite IH. cbn. do 2 f_equal. ring.
Qed.

Lemma interp_from_ceros (x : R) (xs : list R) :
  forall xj, xj <= x ->
    interp_from (Fin x) (Fin xj) (Fin 0)
      (combine (map Fin xs) (repeat (Fin 0) (length xs))) = Fin 0.
Proof.
  induction xs as [| xn xs IH]; intros xj Hj; cbn; [reflexivity |].
  unfold F64.ltb. cbn. destruct (Rlt_dec x xn) as [Hlt | Hge].
  - destruct (Req_dec_T xj x); [reflexivity |].
    cbn. destruct (Req_dec_T (xn + - xj) 0); [lra |].
    cbn. f_equal. unfold Rdiv. ring.
  - apply IH. lra.
Qed.

Lemma np_interp_ceros (x : R) (xs : list R) (n : nat) :
  xs <> [] -> n = length xs ->
  np_interp (Fin x) (map Fin xs) (repeat (Fin 0) n) = Ok (Fin 0).
Proof.
  intros Hne ->. destruct xs as [| x0 xs]; [congruence |].
  unfold np_interp. cbn [map length repeat Nat.eqb].
  rewrite length_map, repeat_length, Nat.eqb_refl. cbn [negb combine].
  pose proof (interp_from_ceros x xs) as Hrest.
  destruct (combine (map Fin xs) (repeat (Fin 0) (length xs))) as [| p l];
    [reflexivity |].
  f_equal. unfold F64.ltb. cbn [F64.is_nan F64.gtb].
  destruct (Rlt_dec x x0); [reflexivity |].
  apply Hrest. lra.
Qed.

Lemma modelo_sdof_reposo (m c k T : R) (ti : R) :
  m <> 0 -> malla T <> [] ->
  modelo_sdof m c k (malla T)
    (fuerza m (repeat (Fin 0) (length (malla T)))) (Fin ti) (Fin 0, Fin 0)
  = Ok (Fin 0, Fin 0).
Proof.
  intros Hm Hne. unfold modelo_sdof. rewrite fuerza_ceros.
  pose proof (malla_reales T) as HR.
  remember (length (malla T)) as n eqn:Hn.
  rewrite HR, np_interp_ceros.
  - cbn. destruct (Req_dec_T m 0); [contradiction |].
    do 3 f_equal. unfold Rdiv. ring.
  - intros H0. rewrite H0 in HR. cbn in HR. congruence.
  - rewrite length_map, length_seq. reflexivity.
Qed.

Lemma map_const_repeat {A B} (b : B) (l : list A) :
  map (fun _ => b) l = repeat b (length l).
Proof. induction l; cbn; congruence. Qed.

Lemma gradient_from_ceros (dx : R) (n : nat) :
  dx <> 0 ->
  gradient_from dx (Fin 0) (Fin 0) (repeat (Fin 0) n)
  = repeat (Fin 0) (S n).
Proof.
  intros Hdx. induction n as [| n IH]; cbn.
  - destruct (Req_dec_T dx 0); [contradiction |].
    do 2 f_equal. unfold Rdiv. ring.
  - rewrite IH. destruct (Req_dec_T (2 * dx) 0); [lra |].
    cbn. do 2 f_equal. unfold Rdiv. ring.
Qed.

Lemma np_gradient_ceros (n : nat) :
  (2 <= n)%nat ->
  np_gradient (repeat (Fin 0) n) 0.01 = Ok (repeat (Fin 0) n).
Proof.
  destruct n as [| [| n]]; try lia. intros _. cbn.
  rewrite gradient_from_ceros by lra.
  destruct (Req_dec_T 0.01 0); [lra |].
  do 3 f_equal. unfold Rdiv. ring.
Qed.

Lemma energia_cero (q : R) : (Fin q * F64.sq (Fin 0))%f = Fin 0.
Proof. cbn. f_equal. ring. Qed.

Lemma suma_ceros (n : nat) :
  zip_with F64.add (repeat (Fin 0) n) (repeat (Fin 0) n)
  = repeat (Fin 0) n.
Proof.
  induction n as [| n IH]; [reflexivity |].
  cbn [repeat zip_with]. rewrite IH. cbn. do 2 f_equal. ring.
Qed.

Lemma posproceso_reposo (m k T : R) (sol : ode_result) :
  sol_y sol = map (fun _ => (Fin 0, Fin 0)) (malla T) ->
  (2 <= length (malla T))%nat ->
  let ceros := repeat (Fin 0) (length (malla T)) in
  posproceso m k T sol
  = Ok (Respuesta (malla T) ceros ceros ceros ceros ceros ceros).
Proof.
  intros Hy Hn ceros. rewrite posproceso_con_estados.
  2:{ rewrite Hy. intros H0. apply (f_equal (@length _)) in H0.
      rewrite length_map in H0. cbn in H0. lia. }
  cbn zeta. rewrite Hy, !map_map. cbn [fst snd].
  rewrite !map_const_repeat. fold ceros.
  unfold ceros at 1. rewrite np_gradient_ceros by exact Hn. cbn [rbind].
  unfold ceros. rewrite !energia_cero, suma_ceros. reflexivity.
Qed.

Lemma euler_pasos_reposo (f : f64 -> f64 * f64 -> result (f64 * f64)) :
  (forall ti : R, f (Fin ti) (Fin 0, Fin 0) = Ok (Fin 0, Fin 0)) ->
  forall (rest : list f64) (tj : R),
    Forall F64.is_finite rest ->
    euler_pasos f (Fin tj) (Fin 0, Fin 0) rest
    = Ok (map (fun _ => (Fin 0, Fin 0)) (Fin tj :: rest)).
Proof.
  intros Hf. induction rest as [| tn rest IH]; intros tj Hfin; cbn.
  - reflexivity.
  - inversion Hfin as [| ? ? Htn Hrest]; subst.
    destruct tn as [tn | | |]; try contradiction.
    rewrite Hf. cbn.
    replace (0 + (tn + - tj) * 0) with 0 by ring.
    rewrite (IH tn Hrest). reflexivity.
Qed.

Lemma nodo_creciente (i j : nat) :
  (i <= j)%nat -> 0 + INR i * 0.01 <= 0 + INR j * 0.01.
Proof. intros H. apply le_INR in H. lra. Qed.

Lemma nodo_estricto (i j : nat) :
  (i < j)%nat -> 0 + INR i * 0.01 < 0 + INR j * 0.01.
Proof. intros H. apply lt_INR in H. lra. Qed.

Lemma euler_conserva_reposo (muestras : nat -> R) :
  conserva_reposo (externals_de muestras integrador_euler).
Proof.
  intros call (_ & _ & _ & ts & Hts & _) Hy0 Hf.
  cbn [integrate externals_de].
  unfold integrador_euler. rewrite Hy0, Hf, Hts. cbn [rbind].
  destruct ts as [| t0 rest]; cbn [map].
  - eexists. split; reflexivity.
  - rewrite (euler_pasos_reposo _ Hf (map Fin rest) t0).
    + cbn. eexists. split; reflexivity.
    + apply Forall_forall. intros x Hx. apply in_map_iff in Hx.
      destruct Hx as [r [<- _]]. exact I.
Qed.

Lemma malla_muestra_cota (T : R) (i : nat) :
  (i < length (malla T))%nat -> 0 <= 0 + INR i * 0.01 < T.
Proof.
  intros Hi. rewrite malla_length in Hi.
  destruct (Rceil_bounds (T / 0.01)) as [B1 B2].
  set (z := Rceil (T / 0.01)) in *.
  pose proof (pos_INR i) as Hpos.
  assert (Hiz : INR i <= IZR z - 1).
  { rewrite INR_IZR_INZ, <- minus_IZR. apply IZR_le. lia. }
  lra.
Qed.

Lemma llamada_bien (m c k T : R) (acc_ground : list f64) :
  0 < T -> llamada_bien_formada (llamada m c k T acc_ground).
Proof.
  intros HT. unfold llamada_bien_formada, llamada.
  cbn [ivp_t_span ivp_method ivp_max_step ivp_t_eval fst snd].
  repeat split; try lra.
  pose proof (malla_length_ge_1 T HT) as Hn.
  exists (map (fun i => 0 + INR i * 0.01) (seq 0 (length (malla T)))).
  split; [apply malla_reales |]. split; [| split].
  - intros H0. apply (f_equal (@length _)) in H0.
    rewrite length_map, length_seq in H0. cbn in H0. lia.
  - intros t Ht. apply in_map_iff in Ht. destruct Ht as [i [<- Hi]].
    apply in_seq in Hi. pose proof (malla_muestra_cota T i ltac:(lia)). lra.
  - intros i j Hij. rewrite length_map, length_seq in Hij.
    rewrite !(nth_indep _ 0 (0 + INR 0 * 0.01))
      by (rewrite length_map, length_seq; lia).
    rewrite !(map_nth (fun i => 0 + INR i * 0.01)).
    rewrite !seq_nth by lia. cbn [Nat.add]. apply nodo_estricto. lia.
Qed.

Lemma integrar_en_reposo (X : externals) (m c k T : R) :
  conserva_reposo X -> m <> 0 -> 0 < T ->
  exists sol,
    integrate X (llamada m c k T (repeat (Fin 0) (length (malla T))))
    = Ok sol
    /\ sol_y sol = map (fun _ => (Fin 0, Fin 0)) (malla T).
Proof.
  intros HX Hm HT.
  apply (HX (llamada m c k T (repeat (Fin 0) (length (malla T))))).
  - apply llamada_bien. exact HT.
  - reflexivity.
  - intros ti. apply modelo_sdof_reposo; [assumption |].
    intros H0. pose proof (malla_length_ge_1 T HT) as Hn.
    rewrite H0 in Hn. cbn in Hn. lia.
Qed.




(* ================================================================== *)
(** ** The raw signal on finite data *)
(* ================================================================== *)

Lemma ricker_fin (t t0 f0 : R) :
  ricker (Fin t) t0 f0 = Fin (ricker_R t t0 f0).
Proof. reflexivity. Qed.

Lemma senal_punto (T t z : R) :
  T <> 0 ->
  (superposicion T (Fin t) * envolvente T (Fin t) + 0.05 * Fin z)%f
  = Fin (onda_R T t + 0.05 * z).
Proof.
  intros HT. unfold superposicion, envolvente. rewrite !ricker_fin. cbn.
  destruct (Req_dec_T (T / 4) 0); [lra |]. reflexivity.
Qed.

Lemma senal_listas (T : R) (ts zs : list R) :
  T <> 0 ->
  zip_with F64.add
    (zip_with F64.mul (map (superposicion T) (map Fin ts))
                      (map (envolvente T) (map Fin ts)))
    (map (F64.mul 0.05) (map Fin zs))
  = map Fin (zip_with (fun t z => onda_R T t + 0.05 * z) ts zs).
Proof.
  intros HT. revert zs.
  induction ts as [| t ts IH]; intros [| z zs]; try reflexivity.
  cbn [map zip_with]. rewrite IH. f_equal. apply senal_punto. exact HT.
Qed.

Lemma senal_bruta_reales (T : R) (zs : list R) :
  T <> 0 ->
  senal_bruta T (map Fin zs)
  = map Fin (zip_with (fun t z => onda_R T t + 0.05 * z)
               (map (fun i => 0 + INR i * 0.01)
                    (seq 0 (length (malla T)))) zs).
Proof.
  intros HT. unfold senal_bruta. cbn zeta.
  pose proof (malla_reales T) as HR.
  remember (length (malla T)) as n eqn:Hn.
  rewrite HR. apply senal_listas. exact HT.
Qed.

Lemma finitos_reales (l : list f64) :
  Forall F64.is_finite l -> exists rs, l = map Fin rs.
Proof.
  induction 1 as [| x l Hx _ [rs ->]].
  - exists []. reflexivity.
  - destruct x as [r | | |]; try contradiction.
    exists (r :: rs). reflexivity.
Qed.

Lemma senal_bruta_finita (X : externals) (T : R) (seed : Z) :
  T <> 0 ->
  exists rs, senal_bruta T (ruido_de X T seed) = map Fin rs
             /\ length rs = length (malla T).
Proof.
  intros HT.
  destruct (finitos_reales (ruido_de X T seed)) as [zs Hzs].
  { unfold ruido_de. apply draw_randn_finite. }
  pose proof (senal_bruta_length T (ruido_de X T seed)
                (ruido_de_length X T seed)) as L.
  rewrite Hzs in *. rewrite senal_bruta_reales in * by exact HT.
  eexists. split; [reflexivity |]. rewrite length_map in L. exact L.
Qed.

(* ================================================================== *)
(** ** The peak of a finite array *)
(* ================================================================== *)

Lemma fold_max_fin (rest : list R) (x : R) :
  fold_left (fun best y => if F64.gtb y best then y else best)
            (map Fin rest) (Fin x)
  = Fin (fold_left Rmax rest x).
Proof.
  revert x. induction rest as [| y rest IH]; intros x; cbn; [reflexivity |].
  destruct (Rlt_dec x y).
  - rewrite IH, (Rmax_right x y) by lra. reflexivity.
  - rewrite IH, (Rmax_left x y) by lra. reflexivity.
Qed.

Lemma fold_Rmax_spec (rest : list R) (x : R) :
  In (fold_left Rmax rest x) (x :: rest)
  /\ forall y, In y (x :: rest) -> y <= fold_left Rmax rest x.
Proof.
  revert x. induction rest as [| z rest IH]; intros x; cbn [fold_left].
  - split; [left; reflexivity |].
    intros y [<- | []]. lra.
  - destruct (IH (Rmax x z)) as [Hin Hub]. split.
    + destruct Hin as [Heq | Hin].
      * rewrite <- Heq.
        destruct (Rmax_case x z (fun r => r = x \/ r = z)) as [E | E];
          auto; rewrite E; cbn; auto.
      * right; right. exact Hin.
    + intros y Hy.
      assert (Hm : Rmax x z <= fold_left Rmax rest (Rmax x z))
        by (apply Hub; left; reflexivity).
      destruct Hy as [<- | [<- | Hy]].
      * pose proof (Rmax_l x z). lra.
      * pose proof (Rmax_r x z). lra.
      * apply Hub. right. exact Hy.
Qed.

Lemma map_abs_fin (rs : list R) :
  map F64.abs (map Fin rs) = map Fin (map Rabs rs).
Proof. rewrite !map_map. reflexivity. Qed.

Lemma py_max_abs_reales (rs : list R) :
  rs <> [] ->
  exists M, py_max (map F64.abs (map Fin rs)) = Ok (Fin M)
            /\ In M (map Rabs rs)
            /\ forall r, In r rs -> Rabs r <= M.
Proof.
  destruct rs as [| r0 rest]; [congruence |]. intros _.
  rewrite map_abs_fin. cbn [map py_max]. rewrite fold_max_fin.
  destruct (fold_Rmax_spec (map Rabs rest) (Rabs r0)) as [Hin Hub].
  eexists. split; [reflexivity | split; [exact Hin |]].
  intros r Hr. apply Hub. change (In (Rabs r) (map Rabs (r0 :: rest))).
  apply in_map. exact Hr.
Qed.

Lemma py_max_abs_unico (rs : list R) (M : R) :
  In M (map Rabs rs) ->
  (forall r, In r rs -> Rabs r <= M) ->
  py_max (map F64.abs (map Fin rs)) = Ok (Fin M).
Proof.
  intros Hin Hub.
  destruct (py_max_abs_reales rs) as [M' [E [Hin' Hub']]].
  { intros ->. contradiction. }
  rewrite E. do 2 f_equal.
  apply in_map_iff in Hin. destruct Hin as [r [<- Hr]].
  apply in_map_iff in Hin'. destruct Hin' as [r' [<- Hr']].
  apply Rle_antisym; auto.
Qed.

Lemma normalizar_reales (rs : list R) (intensidad M : R) :
  py_max (map F64.abs (map Fin rs)) = Ok (Fin M) ->
  M <> 0 ->
  normalizar (map Fin rs) intensidad
  = Ok (map Fin (map (fun r => r / M * (0.6 * intensidad)) rs)).
Proof.
  intros E HM. unfold normalizar. rewrite E. cbn [rbind]. f_equal.
  rewrite !map_map. apply map_ext. intros r. cbn.
  destruct (Req_dec_T M 0); [contradiction |]. reflexivity.
Qed.

Lemma Rabs_escala (r M s : R) :
  0 < M -> 0 < s -> Rabs (r / M * s) = Rabs r / M * s.
Proof.
  intros HM Hs. unfold Rdiv.
  rewrite !Rabs_mult, Rabs_inv, (Rabs_pos_eq M), (Rabs_pos_eq s) by lra.
  reflexivity.
Qed.

(* ================================================================== *)
(** ** Bounds on the wavelet sum *)
(* ================================================================== *)

Lemma Rabs_le_inv (a b : R) : Rabs a <= b -> - b <= a <= b.
Proof.
  intros H. pose proof (Rle_abs a) as H1. pose proof (Rle_abs (- a)) as H2.
  rewrite Rabs_Ropp in H2. lra.
Qed.

Lemma exp_decae (a : R) : 0 <= a -> (1 + a) * exp (- a) <= 1.
Proof.
  intros Ha.
  assert (H1 : 1 + a <= exp a).
  { destruct (Req_dec_T a 0) as [-> | Hne].
    - rewrite exp_0. lra.
    - left. apply exp_ineq1. exact Hne. }
  pose proof (exp_pos (- a)) as Hp.
  assert (H2 : exp a * exp (- a) = 1)
    by (rewrite <- exp_plus, Rplus_opp_r; apply exp_0).
  rewrite <- H2. apply Rmult_le_compat_r; lra.
Qed.

Lemma ricker_R_cota (t t0 f0 : R) : Rabs (ricker_R t t0 f0) <= 2.
Proof.
  unfold ricker_R. cbn zeta.
  set (a := PI * f0 * (t + - t0) * (PI * f0 * (t + - t0))).
  assert (Ha : 0 <= a) by (unfold a; apply Rle_0_sqr).
  pose proof (exp_decae a Ha) as Hd. pose proof (exp_pos (- a)) as Hp.
  apply Rabs_le. nra.
Qed.

Lemma onda_R_cota (T t : R) : Rabs (onda_R T t) <= 6.6.
Proof.
  unfold onda_R.
  set (q := (t + - (T / 2)) / (T / 4)).
  pose proof (exp_pos (- (q * q))) as Hp.
  assert (He : exp (- (q * q)) <= 1).
  { pose proof (exp_decae (q * q)) as Hd.
    assert (0 <= q * q) by apply Rle_0_sqr. specialize (Hd H). nra. }
  pose proof (ricker_R_cota t (T / 3 - 5) 1.0) as H1.
  pose proof (ricker_R_cota t (T / 3) 2.5) as H2.
  pose proof (ricker_R_cota t (T / 3 + 5) 4.0) as H3.
  pose proof (ricker_R_cota t (T / 2) 1.2) as H4.
  pose proof (ricker_R_cota t (2 * T / 3) 3.0) as H5.
  apply Rabs_le_inv in H1, H2, H3, H4, H5.
  rewrite Rabs_mult, (Rabs_pos_eq (exp _)) by lra.
  set (s := 0.8 * _ + _ + _ + _ + _).
  assert (Hs : Rabs s <= 6.6) by (apply Rabs_le; unfold s; lra).
  pose proof (Rabs_pos s). nra.
Qed.

(* ================================================================== *)
(** ** The normalized record *)
(* ================================================================== *)

Lemma todos_cero (rs : list R) :
  (forall r, In r rs -> r = 0) -> map Fin rs = repeat (Fin 0) (length rs).
Proof.
  induction rs as [| r rs IH]; intros H; cbn [map length repeat];
    [reflexivity |].
  rewrite (H r) by (left; reflexivity).
  rewrite IH by (intros r' Hr'; apply H; right; exact Hr'). reflexivity.
Qed.

Lemma pico_de_ceros (n : nat) :
  py_max (map F64.abs (repeat (Fin 0) (S n))) = Ok (Fin 0).
Proof.
  assert (R0 : repeat (Fin 0) (S n) = map Fin (repeat 0 (S n)))
    by (rewrite map_repeat; reflexivity).
  rewrite R0. apply py_max_abs_unico.
  - rewrite map_repeat, Rabs_R0. left. reflexivity.
  - intros r Hr. apply repeat_spec in Hr. subst. rewrite Rabs_R0. lra.
Qed.

(** The raw signal is zero at every sample exactly when its peak is. *)
Lemma senal_no_nula_pico (X : externals) (T : R) (seed : Z) :
  0 < T ->
  senal_bruta T (ruido_de X T seed) <> repeat (Fin 0) (length (malla T)) ->
  pico_bruto X T seed <> Ok (Fin 0).
Proof.
  intros HT Hno Hp. apply Hno. unfold pico_bruto in Hp.
  destruct (senal_bruta_finita X T seed) as [rs [Hrs Hlen]]; [lra |].
  rewrite Hrs in *. rewrite <- Hlen. apply todos_cero.
  destruct (py_max_abs_reales rs) as [M [E [_ Hub]]].
  { intros ->. pose proof (malla_length_ge_1 T HT). cbn in Hlen. lia. }
  rewrite E in Hp. injection Hp as ->.
  intros r Hr. pose proof (Hub r Hr) as H0. pose proof (Rabs_pos r) as H1.
  destruct (Req_dec_T r 0) as [-> | Hne]; [reflexivity |].
  pose proof (Rabs_pos_lt r Hne). lra.
Qed.

Lemma pico_no_nulo_senal (X : externals) (T : R) (seed : Z) :
  0 < T ->
  pico_bruto X T seed <> Ok (Fin 0) ->
  senal_bruta T (ruido_de X T seed) <> repeat (Fin 0) (length (malla T)).
Proof.
  intros HT Hp H0. apply Hp. unfold pico_bruto. rewrite H0.
  pose proof (malla_length_ge_1 T HT) as Hn.
  destruct (length (malla T)) as [| n]; [lia |]. apply pico_de_ceros.
Qed.

Lemma generar_sismo_reales (X : externals) (T intensidad : R) (seed : Z)
  (w : world X) :
  0 < T -> pico_bruto X T seed <> Ok (Fin 0) ->
  exists rs M,
    length rs = length (malla T)
    /\ 0 < M /\ (forall r, In r rs -> Rabs r <= M)
    /\ (exists r, In r rs /\ Rabs r = M)
    /\ valor (generar_sismo T intensidad seed) w
       = Ok (malla T,
             map Fin (map (fun r => r / M * (0.6 * intensidad)) rs)).
Proof.
  intros HT Hpico. unfold pico_bruto in Hpico.
  destruct (senal_bruta_finita X T seed) as [rs [Hrs Hlen]]; [lra |].
  rewrite Hrs in Hpico.
  destruct (py_max_abs_reales rs) as [M [E [Hin Hub]]].
  { intros ->. pose proof (malla_length_ge_1 T HT). cbn in Hlen. lia. }
  assert (HM : 0 < M).
  { apply in_map_iff in Hin. destruct Hin as [r [<- _]].
    destruct (Rabs_pos r) as [Hp | H0]; [exact Hp |].
    exfalso. apply Hpico. rewrite E, <- H0. reflexivity. }
  exists rs, M. repeat split; auto.
  - apply in_map_iff in Hin. destruct Hin as [r [Hr Hin]].
    exists r. split; assumption.
  - unfold valor. rewrite run_generar_sismo, Hrs.
    rewrite (normalizar_reales rs intensidad M E) by lra. reflexivity.
Qed.

Lemma pico_bruto_no_nulo (T : R) (seed : Z) :
  0 < T -> pico_bruto X_euler T seed <> Ok (Fin 0).
Proof.
  intros HT Hp. unfold pico_bruto in Hp.
  assert (Hz : ruido_de X_euler T seed
               = map Fin (map (fun _ => 200)
                              (seq (Z.to_nat seed) (length (malla T))))).
  { unfold ruido_de. cbn. rewrite map_map. reflexivity. }
  rewrite Hz, senal_bruta_reales in Hp by lra.
  pose proof (malla_length_ge_1 T HT) as Hn.
  destruct (length (malla T)) as [| n]; [lia |].
  match type of Hp with
  | py_max (map F64.abs (map Fin ?l)) = _ => set (L := l) in *
  end.
  assert (Hin : In (onda_R T (0 + INR 0 * 0.01) + 0.05 * 200) L)
    by (left; reflexivity).
  destruct (py_max_abs_reales L) as [M [E [_ Hub]]].
  { intros H0. rewrite H0 in Hin. contradiction. }
  rewrite E in Hp. injection Hp as ->.
  pose proof (Hub _ Hin) as H0.
  pose proof (onda_R_cota T (0 + INR 0 * 0.01)) as Hc.
  apply Rabs_le_inv in Hc.
  rewrite Rabs_pos_eq in H0; lra.
Qed.

Lemma normalizar_ceros (n : nat) (intensidad : R) :
  normalizar (repeat (Fin 0) (S n)) intensidad = Ok (repeat NaN (S n)).
Proof.
  unfold normalizar. rewrite pico_de_ceros. cbn [rbind]. f_equal.
  rewrite map_repeat. f_equal.
  cbn. destruct (Req_dec_T 0 0); [| congruence]. decide_R. reflexivity.
Qed.

Lemma ruido_cancela (T : R) (ts : list R) :
  zip_with (fun t z => onda_R T t + 0.05 * z) ts
           (map (fun t => -20 * onda_R T t) ts)
  = repeat 0 (length ts).
Proof.
  induction ts as [| t ts IH]; cbn [map zip_with length repeat];
    [reflexivity |].
  rewrite IH. f_equal. lra.
Qed.

Lemma senal_bruta_cancelada :
  senal_bruta 0.02 (ruido_de X_cancela 0.02 0)
  = repeat (Fin 0) (length (malla 0.02)).
Proof.
  assert (Hz : ruido_de X_cancela 0.02 0
               = map Fin (map (fun t => -20 * onda_R 0.02 t)
                           (map (fun i => 0 + INR i * 0.01)
                                (seq 0 (length (malla 0.02)))))).
  { unfold ruido_de. cbn [draw_randn X_cancela externals_de fst seed_rng].
    rewrite !map_map. reflexivity. }
  rewrite Hz, senal_bruta_reales by lra.
  rewrite ruido_cancela, length_map, length_seq, map_repeat. reflexivity.
Qed.




(* ================================================================== *)
(** ** A raw signal that is zero everywhere *)
(* ================================================================== *)

(** C4, as stated, fails: on a raw signal that is zero at its three
    samples the normalization divides zero by the zero peak and returns
    three NaN, not three zeros. *)
Lemma normalizar_cero_entre_cero :
  normalizar [Fin 0; Fin 0; Fin 0] 1 = Ok [NaN; NaN; NaN]
  /\ normalizar [Fin 0; Fin 0; Fin 0] 1 <> Ok [Fin 0; Fin 0; Fin 0].
Proof.
  pose proof (normalizar_ceros 2 1) as H. cbn [repeat] in H.
  split; [exact H | rewrite H; discriminate].
Qed.

(** C4, amended.  If the raw signal of a run with [T > 0] is zero at
    every sample, [generar_sismo] raises nothing and returns the grid
    with an acceleration array that is NaN at every sample: the peak it
    divides by is zero and the division is not guarded. *)
Theorem generar_sismo_senal_nula (X : externals) (T intensidad : R)
  (seed : Z) (w : world X) :
  0 < T ->
  senal_bruta T (ruido_de X T seed) = repeat (Fin 0) (length (malla T)) ->
  valor (generar_sismo T intensidad seed) w
  = Ok (malla T, repeat NaN (length (malla T))).
Proof.
  intros HT H0. unfold valor. rewrite run_generar_sismo, H0.
  pose proof (malla_length_ge_1 T HT) as Hn.
  destruct (length (malla T)) as [| n]; [lia |].
  rewrite normalizar_ceros. reflexivity.
Qed.

Lemma generar_sismo_senal_nula_witness :
  valor (generar_sismo 0.02 1 0) (World (X := X_cancela) 0%nat [])
  = Ok (malla 0.02, repeat NaN (length (malla 0.02))).
Proof.
  apply (generar_sismo_senal_nula X_cancela 0.02 1 0).
  - lra.
  - apply senal_bruta_cancelada.
Defined.

(* ================================================================== *)
(** ** The intensity as the final factor *)
(* ================================================================== *)

(** C10, as stated, fails in binary64, where the products are rounded.
    On the raw signal [0.3, 1.0] the last statement of [generar_sismo]
    gives the first sample [0.3 / 1.0 * (0.6 * 3.0)] at intensity [3 * 1]
    and [0.3 / 1.0 * (0.6 * 1.0)] at intensity 1, and three times the
    latter is a different float. *)
Lemma generar_sismo_no_homogenea_binary64 :
  exists a1 a3 : list PrimFloat.float,
    Binary64.normalizar_binary64 Binary64.bruta_binary64
      Binary64.uno_binary64 = Some a1
    /\ Binary64.normalizar_binary64 Binary64.bruta_binary64
         (PrimFloat.mul Binary64.tres_binary64 Binary64.uno_binary64)
       = Some a3
    /\ PrimFloat.eqb
         (nth 0 a3 PrimFloat.nan)
         (PrimFloat.mul Binary64.tres_binary64 (nth 0 a1 PrimFloat.nan))
       = false.
Proof.
  eexists _, _. split; [reflexivity | split; [reflexivity |]].
  vm_compute. reflexivity.
Qed.

(** C10, amended.  For fixed duration and seed there is one normalized
    array (or one exception), the same for every intensity and every
    starting world, of which [generar_sismo] returns sample by sample the
    product with [0.6 * intensidad]: the intensity enters only as that
    final factor. *)
Theorem generar_sismo_escala_final (X : externals) (T : R) (seed : Z) :
  exists q : result (list f64),
    forall (intensidad : R) (w : world X),
      valor (generar_sismo T intensidad seed) w
      = rbind q (fun q =>
          Ok (malla T, map (fun qi => qi * (0.6 * intensidad)%R)%f q)).
Proof.
  exists (rbind (pico_bruto X T seed) (fun pico =>
            Ok (map (fun a => a / pico)%f
                    (senal_bruta T (ruido_de X T seed))))).
  intros intensidad w. unfold valor. rewrite run_generar_sismo. cbn [fst].
  unfold normalizar, pico_bruto.
  destruct (py_max _) as [pico | e]; cbn [rbind]; [| reflexivity].
  rewrite map_map. reflexivity.
Qed.

(* ================================================================== *)
(** ** The Ricker wavelet and the envelope *)
(* ================================================================== *)

Lemma exp_cuadratica (a : R) : 0 <= a -> 2 * a - 1 <= exp a.
Proof.
  intros Ha.
  assert (H1 : 1 + a / 2 <= exp (a / 2)).
  { destruct (Req_dec_T (a / 2) 0) as [E | Hne].
    - rewrite E, exp_0. lra.
    - left. apply exp_ineq1. exact Hne. }
  assert (H2 : exp a = exp (a / 2) * exp (a / 2)).
  { rewrite <- exp_plus. f_equal. lra. }
  rewrite H2.
  assert (H3 : (1 + a / 2) * (1 + a / 2) <= exp (a / 2) * exp (a / 2))
    by (apply Rmult_le_compat; lra).
  pose proof (Rle_0_sqr (a / 2 - 1)) as H4. unfold Rsqr in H4. lra.
Qed.

Lemma ricker_R_cota_1 (t t0 f0 : R) : -1 <= ricker_R t t0 f0 <= 1.
Proof.
  unfold ricker_R. cbn zeta.
  set (a := PI * f0 * (t + - t0) * (PI * f0 * (t + - t0))).
  assert (Ha : 0 <= a) by (unfold a; apply Rle_0_sqr).
  pose proof (exp_pos (- a)) as Hp.
  pose proof (exp_cuadratica a Ha) as Hq.
  assert (H2 : exp a * exp (- a) = 1)
    by (rewrite <- exp_plus, Rplus_opp_r; apply exp_0).
  assert (He : exp (- a) <= 1).
  { pose proof (exp_decae a Ha). nra. }
  split.
  - assert ((2 * a - 1) * exp (- a) <= 1).
    { rewrite <- H2. apply Rmult_le_compat_r; lra. }
    lra.
  - destruct (Rle_dec (1 + - (2 * a)) 0); nra.
Qed.

(** X1. At its arrival time the wavelet is 1; at a time within 100 s
    of the arrival and for a frequency of at most 4 Hz, the ranges in
    which [generar_sismo] evaluates it, its value is a finite number
    between -1 and 1. *)
Theorem ricker_pico (t t0 f0 : R) :
  Rabs (t - t0) <= 100 -> 0 < f0 <= 4 ->
  ricker (Fin t0) t0 f0 = Fin 1
  /\ exists r, ricker (Fin t) t0 f0 = Fin r /\ -1 <= r <= 1.
Proof.
  intros _ _. split.
  - rewrite ricker_fin. f_equal. unfold ricker_R. cbn zeta.
    replace (PI * f0 * (t0 + - t0) * (PI * f0 * (t0 + - t0))) with 0 by ring.
    rewrite Ropp_0, exp_0. ring.
  - exists (ricker_R t t0 f0). split; [apply ricker_fin |].
    apply ricker_R_cota_1.
Qed.

Lemma ricker_pico_witness :
  ricker (Fin (20 / 3)) (20 / 3) 2.5 = Fin 1
  /\ exists r, ricker (Fin 3) (20 / 3) 2.5 = Fin r /\ -1 <= r <= 1.
Proof.
  apply (ricker_pico 3 (20 / 3) 2.5).
  - apply Rabs_le. lra.
  - lra.
Defined.

(** X4. For a duration of at least one second the envelope at a finite
    time is a finite value between 0 and 1, and it is 1 at
    mid-record. *)
Theorem envolvente_forma (T t : R) :
  1 <= T ->
  (exists e, envolvente T (Fin t) = Fin e /\ 0 <= e <= 1)
  /\ envolvente T (Fin (T / 2)) = Fin 1.
Proof.
  intros HT. unfold envolvente. cbn.
  destruct (Req_dec_T (T / 4) 0) as [E | _]; [lra |]. cbn.
  split.
  - eexists. split; [reflexivity |].
    set (q := (t + - (T / 2)) / (T / 4)).
    pose proof (exp_pos (- (q * q))) as Hp.
    pose proof (exp_decae (q * q) (Rle_0_sqr q)) as Hd.
    pose proof (Rle_0_sqr q) as Hq. unfold Rsqr in Hq. nra.
  - f_equal.
    replace ((T / 2 + - (T / 2)) / (T / 4)) with 0 by (field; lra).
    rewrite Rmult_0_l, Ropp_0. apply exp_0.
Qed.

Lemma envolvente_forma_witness :
  (exists e, envolvente 20 (Fin 3) = Fin e /\ 0 <= e <= 1)
  /\ envolvente 20 (Fin (20 / 2)) = Fin 1.
Proof. apply (envolvente_forma 20 3). lra. Defined.

(* ================================================================== *)
(** ** The time grid *)
(* ================================================================== *)

(** X5. For a duration of [n <= 60] whole seconds, the range of the
    duration slider, sample [i] of the grid is [i * 0.01] and lies in
    [0, n): the grid starts at 0 and stops short of the duration. *)
Theorem malla_en_intervalo (n i : nat) :
  (n <= 60)%nat -> (i < 100 * n)%nat ->
  nth i (malla (INR n)) NaN = Fin (INR i * 0.01)
  /\ 0 <= INR i * 0.01 < INR n.
Proof.
  intros _ Hi. rewrite <- (malla_entera n) in Hi.
  split; [apply malla_nth; exact Hi |].
  pose proof (malla_muestra_cota (INR n) i Hi). lra.
Qed.

Lemma malla_en_intervalo_witness :
  nth 1999 (malla (INR 20)) NaN = Fin (INR 1999 * 0.01)
  /\ 0 <= INR 1999 * 0.01 < INR 20.
Proof. apply (malla_en_intervalo 20 1999); lia. Defined.

(** X6. For a whole number of seconds, as the duration slider gives, the
    grid has exactly 100 samples per second. *)
Theorem malla_duracion_entera (n : nat) :
  length (malla (INR n)) = (100 * n)%nat.
Proof.
  rewrite malla_length, (Rceil_unique _ (Z.of_nat (100 * n))).
  - apply Nat2Z.id.
  - rewrite <- INR_IZR_INZ, mult_INR. cbn [INR]. 
    replace (INR 100) with 100 by (change 100%nat with (Z.to_nat 100);
      rewrite INR_IZR_INZ, Z2Nat.id by lia; reflexivity).
    lra.
Qed.

Lemma malla_vacia (T : R) : T <= 0 -> malla T = [].
Proof.
  intros HT. apply length_zero_iff_nil. rewrite malla_length.
  destruct (Rceil_bounds (T / 0.01)) as [B1 _].
  assert (Rceil (T / 0.01) < 1)%Z by (apply lt_IZR; lra). lia.
Qed.

(** X7. For a duration [T <= 0] and a seed that [np.random.seed]
    accepts, the grid is empty and [generar_sismo] raises a [ValueError]
    (that of [max] on an empty sequence), after having re-seeded the
    process-wide generator. *)
Theorem generar_sismo_duracion_no_positiva (X : externals)
  (T intensidad : R) (seed : Z) (w : world X) :
  T <= 0 -> (0 <= seed < 2 ^ 32)%Z ->
  malla T = []
  /\ exists e,
       run X (generar_sismo T intensidad seed) w
       = (Raise e,
          World (snd (draw_randn X 0 (seed_rng X seed))) (shown w))
       /\ exn_class e = "ValueError"%string.
Proof.
  intros HT _. split; [apply malla_vacia; exact HT |].
  eexists. rewrite run_generar_sismo.
  unfold senal_bruta. rewrite (malla_vacia T HT).
  split; reflexivity.
Qed.

Lemma generar_sismo_duracion_no_positiva_witness :
  malla 0 = []
  /\ exists e,
       run X_euler (generar_sismo 0 1 0) mundo0
       = (Raise e,
          World (snd (draw_randn X_euler 0 (seed_rng X_euler 0)))
                (shown mundo0))
       /\ exn_class e = "ValueError"%string.
Proof.
  apply (generar_sismo_duracion_no_positiva X_euler 0 1 0 mundo0); lra || lia.
Defined.

(* ================================================================== *)
(** ** The normalized record, sample by sample *)
(* ================================================================== *)



Lemma espejo (q : f64) (s : R) :
  (q * Fin (0.6 * - s))%f = F64.neg (q * Fin (0.6 * s))%f.
Proof.
  destruct q as [r | | |]; cbn.
  - f_equal. ring.
  - destruct (Rtotal_order s 0) as [Hs | [Hs | Hs]].
    + assert (0 < 0.6 * - s) by lra. assert (0.6 * s < 0) by lra.
      decide_R. reflexivity.
    + subst. replace (0.6 * - 0) with 0 by ring.
      replace (0.6 * 0) with 0 by ring. decide_R. reflexivity.
    + assert (0.6 * - s < 0) by lra. assert (0 < 0.6 * s) by lra.
      decide_R. reflexivity.
  - destruct (Rtotal_order s 0) as [Hs | [Hs | Hs]].
    + assert (0 < 0.6 * - s) by lra. assert (0.6 * s < 0) by lra.
      decide_R. reflexivity.
    + subst. replace (0.6 * - 0) with 0 by ring.
      replace (0.6 * 0) with 0 by ring. decide_R. reflexivity.
    + assert (0.6 * - s < 0) by lra. assert (0 < 0.6 * s) by lra.
      decide_R. reflexivity.
  - reflexivity.
Qed.



(* ================================================================== *)
(** ** What [resolver_sdof] returns *)
(* ================================================================== *)

Lemma resolver_sdof_campos (X : externals) (m c k T : R)
  (acc_ground : list f64) (w : world X) (r : respuesta) :
  valor (resolver_sdof m c k T acc_ground) w = Ok (Some r) ->
  exists sol,
    integrate X (llamada m c k T acc_ground) = Ok sol
    /\ r_t r = malla T
    /\ r_x r = map fst (sol_y sol)
    /\ r_v r = map snd (sol_y sol)
    /\ np_gradient (r_v r) 0.01 = Ok (r_a r)
    /\ r_E_cinetica r = map (fun vi => (0.5 * m)%R * F64.sq vi)%f (r_v r)
    /\ r_E_potencial r = map (fun xi => (0.5 * k)%R * F64.sq xi)%f (r_x r)
    /\ r_E_total r = zip_with F64.add (r_E_cinetica r) (r_E_potencial r).
Proof.
  intros H. apply resolver_sdof_valor in H. destruct H as [sol [Hsol Hp]].
  exists sol. split; [exact Hsol |].
  destruct (estados_dec sol) as [Ey | Hne].
  { rewrite posproceso_sin_estados in Hp by exact Ey. discriminate. }
  rewrite posproceso_con_estados in Hp by exact Hne.
  destruct (np_gradient _ _) as [a |] eqn:E; cbn [rbind] in Hp;
    [| discriminate].
  injection Hp as <-. cbn. repeat split; auto.
Qed.

Lemma np_gradient_corta (f : list f64) (dx : R) :
  (length f < 2)%nat ->
  np_gradient f dx = Raise (ValueError
    "Shape of array too small to calculate a numerical gradient, at least (edge_order + 1) elements are required.").
Proof.
  destruct f as [| f0 [| f1 rest]]; cbn; try reflexivity. lia.
Qed.

(** X10. [resolver_sdof] returns a tuple exactly when the integrator
    returns without raising and reports at least two states. *)
Theorem resolver_sdof_devuelve_tupla_sii (X : externals) (m c k T : R)
  (acc_ground : list f64) (w : world X) :
  (exists r, valor (resolver_sdof m c k T acc_ground) w = Ok (Some r))
  <-> exists sol, integrate X (llamada m c k T acc_ground) = Ok sol
                  /\ (2 <= length (sol_y sol))%nat.
Proof.
  split.
  - intros [r Hr]. apply resolver_sdof_campos in Hr.
    destruct Hr as (sol & Hsol & _ & _ & Hv & Hg & _).
    exists sol. split; [exact Hsol |].
    destruct (le_lt_dec 2 (length (sol_y sol))) as [ | Hlt]; [assumption |].
    rewrite np_gradient_corta in Hg; [discriminate |].
    rewrite Hv, length_map. exact Hlt.
  - intros [sol [Hsol Hn]].
    destruct (np_gradient_ok (map snd (sol_y sol)) 0.01) as [a Ha].
    { rewrite length_map. exact Hn. }
    eexists. unfold valor. rewrite run_resolver_sdof, Hsol. cbn [rbind].
    rewrite posproceso_con_estados, Ha; [reflexivity |].
    intros H0. rewrite H0 in Hn. cbn in Hn. lia.
Qed.

(** X11. When the integrator returns fewer than two states,
    [resolver_sdof] returns [None] and shows one error: with no state at
    all, that of indexing the empty list of states; with one state, that
    of [np.gradient] on an array too small. *)
Theorem resolver_sdof_pocos_estados (X : externals) (m c k T : R)
  (acc_ground : list f64) (w : world X) (sol : ode_result) :
  integrate X (llamada m c k T acc_ground) = Ok sol ->
  (length (sol_y sol) < 2)%nat ->
  run X (resolver_sdof m c k T acc_ground) w
  = (Ok None,
     World (rng w)
       (shown w ++
        [("Error al resolver la ecuación diferencial: "
          ++ match sol_y sol with
             | [] => "list index out of range"
             | _ :: _ => "Shape of array too small to calculate a numerical gradient, at least (edge_order + 1) elements are required."
             end)%string])).
Proof.
  intros Hsol Hn. rewrite run_resolver_sdof, Hsol. cbn [rbind].
  destruct (sol_y sol) as [| y ys] eqn:Ey.
  - rewrite posproceso_sin_estados by exact Ey. reflexivity.
  - rewrite posproceso_con_estados by (rewrite Ey; discriminate).
    rewrite np_gradient_corta by (rewrite length_map, Ey; exact Hn).
    rewrite Ey. reflexivity.
Qed.

Lemma integrar_euler_un_estado :
  exists sol,
    integrate X_euler (llamada 1 0.5 20 0.005 [Fin 0]) = Ok sol
    /\ sol_y sol = [(Fin 0, Fin 0)].
Proof.
  assert (M : malla 0.005 = [Fin (0 + 0 * 0.01)]).
  { rewrite (malla_of_length 0.005 1) by (cbn; lra). reflexivity. }
  destruct (integrar_en_reposo X_euler 1 0.5 20 0.005
              (euler_conserva_reposo _)) as [sol [Hsol Hy]];
    [lra | lra |].
  rewrite M in Hsol, Hy. cbn [length repeat map] in Hsol, Hy.
  exists sol. split; [exact Hsol | exact Hy].
Qed.

Lemma resolver_sdof_pocos_estados_witness :
  run X_sin_estados (resolver_sdof 1 0.5 20 20 [])
      (World (X := X_sin_estados) 0%nat [])
  = (Ok None,
     World (X := X_sin_estados) 0%nat
       ["Error al resolver la ecuación diferencial: list index out of range"%string])
  /\ run X_euler (resolver_sdof 1 0.5 20 0.005 [Fin 0]) mundo0
     = (Ok None,
        World (X := X_euler) 0%nat
          ["Error al resolver la ecuación diferencial: Shape of array too small to calculate a numerical gradient, at least (edge_order + 1) elements are required."%string]).
Proof.
  split.
  - apply (resolver_sdof_pocos_estados X_sin_estados 1 0.5 20 20 []
             (World (X := X_sin_estados) 0%nat [])
             (OdeResult [] (-1)
                "Required step size is less than spacing between numbers."
                false)).
    + reflexivity.
    + cbn. lia.
  - destruct integrar_euler_un_estado as [sol [Hsol Hy]].
    pose proof (resolver_sdof_pocos_estados X_euler 1 0.5 20 0.005 [Fin 0]
                  mundo0 sol Hsol) as H.
    rewrite Hy in H. apply H. cbn. lia.
Defined.

Lemma energia_no_negativa (q : R) (l : list f64) :
  0 <= q -> Forall no_negativa (map (fun y => (Fin q * F64.sq y)%f) l).
Proof.
  intros Hq. apply Forall_forall. intros e He.
  apply in_map_iff in He. destruct He as [y [<- _]].
  unfold no_negativa, F64.ltb.
  destruct y as [y | | |]; cbn.
  - pose proof (Rle_0_sqr y) as Hs. unfold Rsqr in Hs.
    destruct (Rlt_dec (q * (y * y)) 0); [nra | reflexivity].
  - destruct (Rlt_dec 0 q); [reflexivity |].
    destruct (Rlt_dec q 0); [lra | reflexivity].
  - destruct (Rlt_dec 0 q); [reflexivity |].
    destruct (Rlt_dec q 0); [lra | reflexivity].
  - reflexivity.
Qed.

Lemma suma_no_negativa (xs ys : list f64) :
  Forall no_negativa xs -> Forall no_negativa ys ->
  Forall no_negativa (zip_with F64.add xs ys).
Proof.
  intros Hx. revert ys.
  induction Hx as [| x xs Hx _ IH]; intros ys Hy; [constructor |].
  destruct Hy as [| y ys Hy Hys]; [constructor |].
  cbn [zip_with]. constructor; [| apply IH; exact Hys].
  unfold no_negativa, F64.ltb in *.
  destruct x as [a | | |], y as [b | | |]; cbn in *;
    try reflexivity; try discriminate.
  destruct (Rlt_dec a 0); [discriminate |].
  destruct (Rlt_dec b 0); [discriminate |].
  destruct (Rlt_dec (a + b) 0); [lra | reflexivity].
Qed.

(** X12. In every returned tuple, with [m >= 0] and [k >= 0], no kinetic,
    potential or total energy sample is less than zero (each is a
    non-negative number, [+inf] or NaN), and the total energy is the
    sample-by-sample sum of the other two. *)
Theorem resolver_sdof_energias (X : externals) (m c k T : R)
  (acc_ground : list f64) (w : world X) (r : respuesta) :
  valor (resolver_sdof m c k T acc_ground) w = Ok (Some r) ->
  0 <= m -> 0 <= k ->
  Forall (fun e => F64.ltb e (Fin 0) = false) (r_E_cinetica r)
  /\ Forall (fun e => F64.ltb e (Fin 0) = false) (r_E_potencial r)
  /\ Forall (fun e => F64.ltb e (Fin 0) = false) (r_E_total r)
  /\ r_E_total r = zip_with F64.add (r_E_cinetica r) (r_E_potencial r).
Proof.
  intros Hr Hm Hk. apply resolver_sdof_campos in Hr.
  destruct Hr as (sol & _ & _ & _ & _ & _ & Hc & Hp & Ht).
  assert (H1 : Forall no_negativa (r_E_cinetica r))
    by (rewrite Hc; apply energia_no_negativa; lra).
  assert (H2 : Forall no_negativa (r_E_potencial r))
    by (rewrite Hp; apply energia_no_negativa; lra).
  refine (conj H1 (conj H2 (conj _ Ht))).
  rewrite Ht. apply suma_no_negativa; assumption.
Qed.

Lemma resolver_sdof_energias_witness :
  exists r,
    valor (resolver_sdof 1 0.5 20 20 (map (fun _ => Fin 1) (malla 20)))
          mundo0 = Ok (Some r)
    /\ Forall (fun e => F64.ltb e (Fin 0) = false) (r_E_cinetica r)
    /\ Forall (fun e => F64.ltb e (Fin 0) = false) (r_E_potencial r)
    /\ Forall (fun e => F64.ltb e (Fin 0) = false) (r_E_total r)
    /\ r_E_total r = zip_with F64.add (r_E_cinetica r) (r_E_potencial r).
Proof.
  destruct (resolver_euler_devuelve (fun _ => 200) 1 0.5 20 20
              (map (fun _ => Fin 1) (malla 20)) mundo0)
    as [sol [r [_ [_ Hr]]]].
  - apply length_map.
  - rewrite malla_20_length. lia.
  - exists r. split; [exact Hr |].
    apply (resolver_sdof_energias X_euler 1 0.5 20 20
             (map (fun _ => Fin 1) (malla 20)) mundo0 r Hr); lra.
Defined.

Lemma gradient_from_constante (dx v0 : R) (n : nat) :
  dx <> 0 ->
  gradient_from dx (Fin v0) (Fin v0) (repeat (Fin v0) n)
  = repeat (Fin 0) (S n).
Proof.
  intros Hdx. induction n as [| n IH]; cbn.
  - destruct (Req_dec_T dx 0); [contradiction |].
    do 2 f_equal. unfold Rdiv. ring.
  - rewrite IH. destruct (Req_dec_T (2 * dx) 0); [lra |].
    cbn. do 2 f_equal. unfold Rdiv. ring.
Qed.

Lemma np_gradient_constante (v0 : R) (n : nat) :
  np_gradient (repeat (Fin v0) (S (S n))) 0.01
  = Ok (repeat (Fin 0) (S (S n))).
Proof.
  cbn. rewrite gradient_from_constante by lra.
  destruct (Req_dec_T 0.01 0); [lra |].
  do 3 f_equal. unfold Rdiv. ring.
Qed.

(** X13. A constant velocity gives a zero acceleration: when every
    sample of the returned velocity is the same finite number, the
    acceleration recovered by [np.gradient] is zero at every sample, the
    two ends included. *)
Theorem resolver_sdof_velocidad_constante (X : externals) (m c k T : R)
  (acc_ground : list f64) (w : world X) (r : respuesta) (v0 : R)
  (n : nat) :
  valor (resolver_sdof m c k T acc_ground) w = Ok (Some r) ->
  r_v r = repeat (Fin v0) n ->
  (2 <= n)%nat /\ r_a r = repeat (Fin 0) n.
Proof.
  intros Hr Hv. apply resolver_sdof_campos in Hr.
  destruct Hr as (sol & _ & _ & _ & _ & Hg & _).
  rewrite Hv in Hg. destruct n as [| [| n]].
  - discriminate.
  - discriminate.
  - rewrite np_gradient_constante in Hg. split; [lia | congruence].
Qed.

Lemma resolver_sdof_velocidad_constante_witness :
  exists r,
    valor (resolver_sdof 1 0.5 20 20 (repeat (Fin 0) (length (malla 20))))
          mundo0 = Ok (Some r)
    /\ r_v r = repeat (Fin 0) 2000
    /\ (2 <= 2000)%nat /\ r_a r = repeat (Fin 0) 2000.
Proof.
  pose proof malla_20_length as L.
  destruct (integrar_en_reposo X_euler 1 0.5 20 20
              (euler_conserva_reposo _)) as [sol [Hsol Hy]]; [lra | lra |].
  assert (Hr : valor (resolver_sdof 1 0.5 20 20
                        (repeat (Fin 0) (length (malla 20)))) mundo0
               = Ok (Some (Respuesta (malla 20)
                             (repeat (Fin 0) 2000) (repeat (Fin 0) 2000)
                             (repeat (Fin 0) 2000) (repeat (Fin 0) 2000)
                             (repeat (Fin 0) 2000) (repeat (Fin 0) 2000)))).
  { unfold valor. rewrite run_resolver_sdof, Hsol. cbn [rbind].
    rewrite (posproceso_reposo 1 20 20 sol Hy) by (rewrite L; lia).
    rewrite L. reflexivity. }
  eexists. split; [exact Hr |]. split; [reflexivity |].
  apply (resolver_sdof_velocidad_constante X_euler 1 0.5 20 20
           (repeat (Fin 0) (length (malla 20))) mundo0 _ 0 2000 Hr).
  reflexivity.
Defined.

(* ================================================================== *)
(** ** The forcing seen by the integrator *)
(* ================================================================== *)

Lemma interp_from_nodo (k : nat) :
  forall (s : nat) (fj : f64) (fs : list f64) (i : nat),
    length fs = k -> (i <= k)%nat ->
    interp_from (Fin (0 + INR (s + i) * 0.01)) (Fin (0 + INR s * 0.01)) fj
      (combine (map Fin (map (fun i => 0 + INR i * 0.01) (seq (S s) k))) fs)
    = nth i (fj :: fs) NaN.
Proof.
  induction k as [| k IH]; intros s fj fs i Hlen Hi.
  - destruct fs; [| discriminate]. replace i with 0%nat by lia. reflexivity.
  - destruct fs as [| fn fs]; [discriminate |]. injection Hlen as Hlen.
    cbn [seq map combine interp_from]. unfold F64.ltb. cbn [F64.gtb].
    destruct i as [| i].
    + rewrite Nat.add_0_r.
      destruct (Rlt_dec _ _) as [_ | Hn];
        [| exfalso; apply Hn; apply nodo_estricto; lia].
      cbn [F64.eqb]. destruct (Req_dec_T _ _); [reflexivity | congruence].
    + destruct (Rlt_dec _ _) as [Hlt | _].
      { pose proof (nodo_creciente (S s) (s + S i) ltac:(lia)). lra. }
      replace (s + S i)%nat with (S s + i)%nat by lia.
      rewrite (IH (S s) fn fs i Hlen) by lia. reflexivity.
Qed.

Lemma np_interp_nodo (n i : nat) (F : list f64) :
  length F = n -> (i < n)%nat ->
  np_interp (Fin (0 + INR i * 0.01))
    (map Fin (map (fun i => 0 + INR i * 0.01) (seq 0 n))) F
  = Ok (nth i F NaN).
Proof.
  intros Hlen Hi. unfold np_interp.
  rewrite !length_map, length_seq, Hlen, Nat.eqb_refl. cbn [negb].
  destruct n as [| n]; [lia |]. destruct F as [| f0 F]; [discriminate |].
  injection Hlen as Hlen. cbn [seq map combine Nat.eqb].
  pose proof (interp_from_nodo n 0 f0 F i Hlen) as Hnodo.
  cbn [Nat.add] in Hnodo.
  destruct (combine _ F) as [| p l] eqn:E.
  - destruct n; [| destruct F; discriminate].
    replace i with 0%nat by lia. reflexivity.
  - f_equal. cbn [F64.is_nan]. unfold F64.ltb. cbn [F64.gtb].
    destruct (Rlt_dec _ _) as [Hlt | _].
    { pose proof (nodo_creciente 0 i ltac:(lia)). lra. }
    apply Hnodo. lia.
Qed.

(** X14. At a grid time the forcing is not interpolated: with a record
    of the grid's length, the right-hand side at the [i]-th grid time and
    state [(x, v)] is [(v, (-m * acc_ground[i] - c v - k x) / m)]. *)
Theorem modelo_sdof_en_nodo (m c k T : R) (acc_ground : list f64)
  (i : nat) (x v : f64) :
  length acc_ground = length (malla T) ->
  (i < length (malla T))%nat ->
  modelo_sdof m c k (malla T) (fuerza m acc_ground)
              (nth i (malla T) NaN) (x, v)
  = Ok (v, (((- m)%R * nth i acc_ground NaN - c * v - k * x) / m)%f).
Proof.
  intros Hlen Hi. unfold modelo_sdof.
  rewrite (malla_nth T i Hi).
  replace (INR i * 0.01) with (0 + INR i * 0.01) by lra.
  pose proof (malla_reales T) as HR.
  remember (length (malla T)) as n eqn:Hn. rewrite HR.
  rewrite (np_interp_nodo n i) by (unfold fuerza; rewrite ?length_map; auto).
  cbn [rbind]. unfold fuerza.
  change NaN with ((fun ag => (Fin (- m) * ag)%f) NaN) at 1.
  rewrite map_nth. reflexivity.
Qed.

Lemma modelo_sdof_en_nodo_witness :
  modelo_sdof 1 0.5 20 (malla 0.02) (fuerza 1 [Fin 3; Fin 4])
              (nth 1 (malla 0.02) NaN) (Fin 0, Fin 0)
  = Ok (Fin 0,
        (((- 1)%R * nth 1 [Fin 3; Fin 4] NaN - 0.5 * Fin 0 - 20 * Fin 0)
         / 1)%f).
Proof.
  apply (modelo_sdof_en_nodo 1 0.5 20 0.02 [Fin 3; Fin 4] 1 (Fin 0) (Fin 0)).
  - rewrite malla_002. reflexivity.
  - rewrite malla_002. cbn. lia.
Defined.

Lemma interp_from_derecha (x : R) (k : nat) :
  forall (s : nat) (fj : f64) (fs : list f64),
    length fs = k -> 0 + INR (s + k) * 0.01 <= x ->
    interp_from (Fin x) (Fin (0 + INR s * 0.01)) fj
      (combine (map Fin (map (fun i => 0 + INR i * 0.01) (seq (S s) k))) fs)
    = last (fj :: fs) NaN.
Proof.
  induction k as [| k IH]; intros s fj fs Hlen Hx.
  - destruct fs; [reflexivity | discriminate].
  - destruct fs as [| fn fs]; [discriminate |]. injection Hlen as Hlen.
    cbn [seq map combine interp_from]. unfold F64.ltb. cbn [F64.gtb].
    destruct (Rlt_dec _ _) as [Hlt | _].
    { pose proof (nodo_creciente (S s) (s + S k) ltac:(lia)). lra. }
    rewrite (IH (S s) fn fs Hlen).
    + reflexivity.
    + replace (S s + k)%nat with (s + S k)%nat by lia. exact Hx.
Qed.

(** X16. Outside the grid the force is held constant: with a record of
    the grid's length and [T > 0], every negative time sees the first
    force sample, and every time at or after the last grid sample -- the
    stretch up to [T] the integrator still covers -- sees the last one. *)
Theorem fuerza_fuera_de_la_malla (m T ti tf : R)
  (acc_ground : list f64) :
  0 < T ->
  length acc_ground = length (malla T) ->
  ti < 0 ->
  INR (length (malla T) - 1) * 0.01 <= tf ->
  np_interp (Fin ti) (malla T) (fuerza m acc_ground)
  = Ok (hd NaN (fuerza m acc_ground))
  /\ np_interp (Fin tf) (malla T) (fuerza m acc_ground)
     = Ok (last (fuerza m acc_ground) NaN).
Proof.
  intros HT Hlen Hneg Hlast.
  assert (HF : length (fuerza m acc_ground) = length (malla T))
    by (unfold fuerza; rewrite length_map; exact Hlen).
  pose proof (malla_reales T) as HR.
  pose proof (malla_length_ge_1 T HT) as Hn.
  remember (length (malla T)) as n eqn:En. rewrite HR.
  remember (fuerza m acc_ground) as F eqn:EF.
  unfold np_interp.
  rewrite !length_map, length_seq, HF, Nat.eqb_refl. cbn [negb].
  destruct n as [| n]; [lia |]. destruct F as [| f0 F]; [discriminate |].
  injection HF as HF. cbn [seq map combine hd Nat.eqb].
  pose proof (interp_from_derecha tf n 0 f0 F HF) as Hder.
  cbn [Nat.add] in Hder.
  destruct (combine _ F) as [| p l] eqn:E.
  - assert (F = []) as ->.
    { destruct n; [destruct F; [reflexivity | discriminate] |].
      destruct F; discriminate. }
    split; reflexivity.
  - cbn [F64.is_nan]. unfold F64.ltb. cbn [F64.gtb]. split.
    + destruct (Rlt_dec _ _) as [_ | Hc]; [reflexivity |].
      exfalso. apply Hc. cbn [INR]. lra.
    + replace (S n - 1)%nat with n in Hlast by lia.
      destruct (Rlt_dec _ _) as [Hc | _].
      { pose proof (pos_INR n). cbn [INR] in Hc. lra. }
      f_equal. apply Hder. lra.
Qed.

Lemma fuerza_fuera_de_la_malla_witness :
  np_interp (Fin (-1)) (malla 0.02) (fuerza 1 [Fin 3; Fin 4])
  = Ok (hd NaN (fuerza 1 [Fin 3; Fin 4]))
  /\ np_interp (Fin 0.015) (malla 0.02) (fuerza 1 [Fin 3; Fin 4])
     = Ok (last (fuerza 1 [Fin 3; Fin 4]) NaN).
Proof.
  apply (fuerza_fuera_de_la_malla 1 0.02 (-1) 0.015 [Fin 3; Fin 4]).
  - lra.
  - rewrite malla_002. reflexivity.
  - lra.
  - rewrite malla_002. cbn. lra.
Defined.

Lemma modelo_sdof_malla_vacia (m c k : R) (F_t : list f64) (ti : f64)
  (y : f64 * f64) :
  exists e, modelo_sdof m c k [] F_t ti y = Raise e.
Proof.
  destruct y as [x v]. unfold modelo_sdof, np_interp.
  destruct F_t; cbn; eexists; reflexivity.
Qed.

(** X17. The right-hand side built by [resolver_sdof] raises, at every
    time and state alike, exactly when the record's length differs from
    the grid's or the duration is not positive (an empty grid); otherwise
    it returns at every time and state. *)
Theorem modelo_sdof_lanza_sii (m c k T : R) (acc_ground : list f64)
  (ti : f64) (y : f64 * f64) :
  (exists e, modelo_sdof m c k (malla T) (fuerza m acc_ground) ti y
             = Raise e)
  <-> (length acc_ground <> length (malla T) \/ T <= 0).
Proof.
  split.
  - intros [e He].
    destruct (Nat.eq_dec (length acc_ground) (length (malla T)))
      as [Heq | Hne]; [| left; exact Hne].
    destruct (Rle_dec T 0) as [HT | HT]; [right; exact HT |].
    exfalso.
    destruct (modelo_sdof_ok m c k (malla T) (fuerza m acc_ground) ti y)
      as [d Hd].
    + unfold fuerza. rewrite length_map. congruence.
    + intros H0. pose proof (malla_length_ge_1 T ltac:(lra)) as Hn.
      rewrite H0 in Hn. cbn in Hn. lia.
    + congruence.
  - intros [Hne | HT].
    + apply modelo_sdof_desalineado. unfold fuerza.
      rewrite length_map. congruence.
    + rewrite (malla_vacia T HT). apply modelo_sdof_malla_vacia.
Qed.

(* ================================================================== *)
(** ** The dynamic descriptors and the damping labels *)
(* ================================================================== *)

Lemma parametros_dinamicos_reales (m c k : R) :
  0 < m -> 0 < k ->
  parametros_dinamicos m c k
  = Ok (Dinamica (Fin (sqrt (k / m)))
                 (Fin (sqrt (k / m) / (2 * PI)))
                 (Fin (2 * PI / sqrt (k / m)))
                 (Fin (2 * sqrt (m * k)))
                 (Fin (c / (2 * sqrt (m * k))))).
Proof.
  intros Hm Hk.
  assert (Hkm : 0 < k / m) by (apply Rdiv_lt_0_compat; assumption).
  pose proof (sqrt_lt_R0 (k / m) Hkm) as Hw.
  assert (Hmk : 0 < m * k) by nra.
  pose proof (sqrt_lt_R0 (m * k) Hmk) as Hcc.
  pose proof PI_RGT_0 as Hpi.
  unfold parametros_dinamicos, py_div.
  destruct (Req_dec_T m 0); [lra |]. cbn [rbind]. unfold np_sqrt.
  destruct (Rlt_dec (k / m) 0); [lra |].
  destruct (Rlt_dec (m * k) 0); [lra |]. cbn.
  destruct (Req_dec_T (2 * PI) 0); [lra |].
  destruct (Req_dec_T (sqrt (k / m)) 0); [lra |].
  destruct (Req_dec_T (2 * sqrt (m * k)) 0); [lra |]. reflexivity.
Qed.

(** X18. For a mass, damping and stiffness in the ranges of their
    sliders the sidebar computation raises nothing and its five
    descriptors are finite: the angular frequency, the frequency, the
    period and the critical damping are positive, and the damping ratio
    is not negative and is zero for zero damping. *)
Theorem parametros_dinamicos_validos (m c k : R) :
  0.1 <= m <= 10 -> 0 <= c <= 5 -> 1 <= k <= 100 ->
  exists w f p cc z,
    parametros_dinamicos m c k
    = Ok (Dinamica (Fin w) (Fin f) (Fin p) (Fin cc) (Fin z))
    /\ 0 < w /\ 0 < f /\ 0 < p /\ 0 < cc
    /\ 0 <= z /\ (c = 0 -> z = 0).
Proof.
  intros Hm Hc Hk.
  assert (Hkm : 0 < k / m) by (apply Rdiv_lt_0_compat; lra).
  pose proof (sqrt_lt_R0 (k / m) Hkm) as Hw.
  assert (Hmk : 0 < m * k) by nra.
  pose proof (sqrt_lt_R0 (m * k) Hmk) as Hcc.
  pose proof PI_RGT_0 as Hpi.
  do 5 eexists. split; [apply parametros_dinamicos_reales; lra |].
  refine (conj Hw (conj _ (conj _ (conj _ (conj _ _))))).
  - apply Rdiv_lt_0_compat; lra.
  - apply Rdiv_lt_0_compat; lra.
  - lra.
  - apply Rmult_le_pos; [lra |]. left. apply Rinv_0_lt_compat. lra.
  - intros ->. unfold Rdiv. ring.
Qed.

Lemma parametros_dinamicos_validos_witness :
  exists w f p cc z,
    parametros_dinamicos 1 0.5 20
    = Ok (Dinamica (Fin w) (Fin f) (Fin p) (Fin cc) (Fin z))
    /\ 0 < w /\ 0 < f /\ 0 < p /\ 0 < cc
    /\ 0 <= z /\ (0.5 = 0 -> z = 0).
Proof. apply (parametros_dinamicos_validos 1 0.5 20); lra. Defined.

(** X19. Outside the sliders' ranges: a zero mass makes the sidebar
    computation raise [ZeroDivisionError] (Python float division)
    whatever the damping and stiffness, while for a mass in its slider's
    range and a stiffness of -1 or less nothing is raised, the
    frequency, period and damping ratio are NaN, and both damping labels
    read over-damped. *)
Theorem parametros_dinamicos_fuera_de_rango (m c k c' k' : R) :
  0.1 <= m <= 10 -> k <= -1 ->
  parametros_dinamicos 0 c' k' = Raise ZeroDivisionError
  /\ exists d,
      parametros_dinamicos m c k = Ok d
      /\ omega_n d = NaN /\ periodo d = NaN /\ zeta d = NaN
      /\ etiqueta_lateral (zeta d) = "Sobreamort."%string
      /\ tipo_amortiguamiento (zeta d) = "Sobreamortiguado"%string.
Proof.
  intros Hm Hk. split.
  - unfold parametros_dinamicos, py_div.
    destruct (Req_dec_T 0 0); [reflexivity | congruence].
  - assert (Hm0 : 0 < m) by lra.
    assert (Hkm : k / m < 0).
    { unfold Rdiv. pose proof (Rinv_0_lt_compat m Hm0). nra. }
    assert (Hmk : m * k < 0) by nra.
    unfold parametros_dinamicos, py_div.
    destruct (Req_dec_T m 0); [lra |]. cbn [rbind]. unfold np_sqrt.
    destruct (Rlt_dec (k / m) 0); [| lra].
    destruct (Rlt_dec (m * k) 0); [| lra].
    eexists. split; [reflexivity |]. cbn. repeat split; reflexivity.
Qed.

Lemma parametros_dinamicos_fuera_de_rango_witness :
  parametros_dinamicos 0 0.5 20 = Raise ZeroDivisionError
  /\ exists d,
      parametros_dinamicos 1 0.5 (-3) = Ok d
      /\ omega_n d = NaN /\ periodo d = NaN /\ zeta d = NaN
      /\ etiqueta_lateral (zeta d) = "Sobreamort."%string
      /\ tipo_amortiguamiento (zeta d) = "Sobreamortiguado"%string.
Proof.
  apply (parametros_dinamicos_fuera_de_rango 1 0.5 (-3) 0.5 20); lra.
Defined.





(* ================================================================== *)
(** ** The main flow of the page *)
(* ================================================================== *)

Lemma valor_sin_converger (m c k T : R) (acc_ground : list f64)
  (w : world X_sin_converger) :
  valor (resolver_sdof m c k T acc_ground) w
  = Ok (Some (Respuesta (malla T) [Fin 0; Fin 1] [Fin 0; Fin 2]
                [Fin ((2 + - 0) / 0.01); Fin ((2 + - 0) / 0.01)]
                [Fin (0.5 * m * (0 * 0)); Fin (0.5 * m * (2 * 2))]
                [Fin (0.5 * k * (0 * 0)); Fin (0.5 * k * (1 * 1))]
                [Fin (0.5 * m * (0 * 0) + 0.5 * k * (0 * 0));
                 Fin (0.5 * m * (2 * 2) + 0.5 * k * (1 * 1))])).
Proof.
  unfold valor. rewrite run_resolver_sdof. cbn.
  destruct (Req_dec_T 0.01 0); [lra |]. reflexivity.
Qed.

Lemma run_bind (X : externals) {A B} (p : prog A) (f : A -> prog B) :
  forall w : world X,
    run X (bind p f) w
    = match run X p w with
      | (Ok a, w') => run X (f a) w'
      | (Raise e, w') => (Raise e, w')
      end.
Proof.
  induction p as [a | e | s k IH | n k IH | call k IH | msg k IH];
    intros w; cbn.
  - reflexivity.
  - reflexivity.
  - apply IH.
  - destruct (draw_randn X n (rng w)) as [z g]. apply IH.
  - apply IH.
  - apply IH.
Qed.

Lemma run_calcular (X : externals) (m c k T intensidad : R)
  (w : world X) :
  run X (calcular m c k T intensidad) w
  = match run X (generar_sismo T intensidad 0) w with
    | (Raise e, w1) => (Raise e, w1)
    | (Ok (t, acc), w1) =>
        match run X (resolver_sdof m c k T acc) w1 with
        | (Ok (Some r), w2) => (Ok (r_t r, acc, r), w2)
        | (Ok None, w2) =>
            (Raise (Exception "StopException" ""),
             World (rng w2) (shown w2 ++ [mensaje_sin_respuesta]))
        | (Raise e, w2) => (Raise e, w2)
        end
    end.
Proof.
  unfold calcular. rewrite run_bind.
  destruct (run X (generar_sismo T intensidad 0) w) as [[[t acc] | e] w1];
    [| reflexivity].
  rewrite run_bind.
  destruct (run X (resolver_sdof m c k T acc) w1) as [[[r |] | e] w2];
    reflexivity.
Qed.

(** X22. In the main flow, when the solver gives no result for the
    synthesized record, the page shows exactly two errors, the solver's
    own and then "No se pudo calcular la respuesta. Ajusta los
    parámetros.", and the run stops with streamlit's [StopException]. *)
Theorem calcular_sin_respuesta (X : externals) (m c k T intensidad : R)
  (w : world X) (t acc : list f64) :
  valor (generar_sismo T intensidad 0) w = Ok (t, acc) ->
  valor (resolver_sdof m c k T acc) w = Ok None ->
  exists msg,
    run X (calcular m c k T intensidad) w
    = (Raise (Exception "StopException" ""),
       World (rng (mundo (generar_sismo T intensidad 0) w))
             (shown w ++ [msg; mensaje_sin_respuesta])).
Proof.
  unfold valor, mundo. intros Hg Hr. rewrite run_calcular.
  rewrite run_generar_sismo in *. cbn [fst snd] in *. rewrite Hg.
  rewrite run_resolver_sdof in *. revert Hr.
  destruct (rbind (integrate X (llamada m c k T acc)) (posproceso m k T))
    as [r | e]; [cbn; discriminate | intros _].
  cbn [rng shown]. exists (mensaje_error e).
  rewrite <- app_assoc. reflexivity.
Qed.

Lemma calcular_sin_respuesta_witness :
  exists msg,
    run X_que_lanza (calcular 1 0.5 20 20 1)
        (World (X := X_que_lanza) 0%nat [])
    = (Raise (Exception "StopException" ""),
       World (rng (mundo (generar_sismo 20 1 0)
                         (World (X := X_que_lanza) 0%nat [])))
             ([] ++ [msg; mensaje_sin_respuesta])).
Proof.
  destruct (generar_sismo_devuelve X_que_lanza 20 1 0
              (World (X := X_que_lanza) 0%nat [])) as [acc E].
  { intros H0. pose proof malla_20_length as L. rewrite H0 in L.
    discriminate. }
  apply (calcular_sin_respuesta X_que_lanza 1 0.5 20 20 1
           (World (X := X_que_lanza) 0%nat []) (malla 20) acc E).
  unfold valor. rewrite run_resolver_sdof. reflexivity.
Defined.

(** X23. In the main flow, when the solver returns a tuple for the
    synthesized record, the run returns it with nothing shown; the time
    vector of the tuple is the synthesizer's, and the ground record has
    its length. *)
Theorem calcular_con_respuesta (X : externals) (m c k T intensidad : R)
  (w : world X) (t acc : list f64) (r : respuesta) :
  valor (generar_sismo T intensidad 0) w = Ok (t, acc) ->
  valor (resolver_sdof m c k T acc) w = Ok (Some r) ->
  run X (calcular m c k T intensidad) w
  = (Ok (t, acc, r),
     World (rng (mundo (generar_sismo T intensidad 0) w)) (shown w))
  /\ r_t r = t /\ length acc = length t.
Proof.
  intros Hg Hr.
  destruct (generar_sismo_valor X T intensidad 0 w t acc Hg) as [-> Hlen].
  destruct (resolver_sdof_campos X m c k T acc w r Hr) as (_ & _ & Ht & _).
  split; [| split; [exact Ht | exact Hlen]].
  unfold valor, mundo in *. rewrite run_calcular.
  rewrite run_generar_sismo in *. cbn [fst snd] in *. rewrite Hg.
  rewrite run_resolver_sdof in *. revert Hr.
  destruct (rbind (integrate X (llamada m c k T acc)) (posproceso m k T))
    as [r' | e]; [| cbn; discriminate].
  cbn [fst]. intros [= ->]. rewrite Ht. reflexivity.
Qed.

Lemma calcular_con_respuesta_witness :
  exists acc r,
    run X_sin_converger (calcular 1 0.5 20 20 1)
        (World (X := X_sin_converger) 0%nat [])
    = (Ok (malla 20, acc, r),
       World (rng (mundo (generar_sismo 20 1 0)
                         (World (X := X_sin_converger) 0%nat []))) [])
    /\ r_t r = malla 20 /\ length acc = length (malla 20).
Proof.
  destruct (generar_sismo_devuelve X_sin_converger 20 1 0
              (World (X := X_sin_converger) 0%nat [])) as [acc E].
  { intros H0. pose proof malla_20_length as L. rewrite H0 in L.
    discriminate. }
  eexists acc, _.
  apply (calcular_con_respuesta X_sin_converger 1 0.5 20 20 1
           (World (X := X_sin_converger) 0%nat []) (malla 20) acc _ E).
  apply valor_sin_converger.
Defined.

(** X24. The two functions fit together: for [T > 0], on the record
    that [generar_sismo] returns, the right-hand side that
    [resolver_sdof] hands to the integrator returns at every time and
    state; the length mismatch of a foreign record cannot occur in the
    page. *)
Theorem modelo_sdof_sobre_registro_sintetico (X : externals)
  (m c k T intensidad : R) (seed : Z) (w : world X) (t acc : list f64)
  (ti : f64) (y : f64 * f64) :
  0 < T ->
  valor (generar_sismo T intensidad seed) w = Ok (t, acc) ->
  exists d, ivp_fun (llamada m c k T acc) ti y = Ok d.
Proof.
  intros HT Hg.
  destruct (generar_sismo_valor X T intensidad seed w t acc Hg) as [_ Hlen].
  unfold llamada. cbn [ivp_fun]. apply modelo_sdof_ok.
  - unfold fuerza. rewrite length_map. congruence.
  - intros H0. pose proof (malla_length_ge_1 T HT) as Hn.
    rewrite H0 in Hn. cbn in Hn. lia.
Qed.

Lemma modelo_sdof_sobre_registro_sintetico_witness :
  exists acc,
    valor (generar_sismo 20 1 0) mundo0 = Ok (malla 20, acc)
    /\ exists d, ivp_fun (llamada 1 0.5 20 20 acc) (Fin 3) (Fin 0, Fin 0)
                 = Ok d.
Proof.
  destruct (generar_sismo_devuelve X_euler 20 1 0 mundo0) as [acc E].
  { intros H0. pose proof malla_20_length as L. rewrite H0 in L.
    discriminate. }
  exists acc. split; [exact E |].
  apply (modelo_sdof_sobre_registro_sintetico X_euler 1 0.5 20 20 1 0
           mundo0 (malla 20) acc (Fin 3) (Fin 0, Fin 0)).
  - lra.
  - exact E.
Defined.
